(** * arrow/dataset/scanner_internal.h: the lazy scan pipeline

    A shallow embedding of [FilterRecordBatch], [ProjectRecordBatch],
    [FilterAndProjectScanTask] and [GetScanTaskIterator], with the iterator
    combinators of arrow/util/iterator.h they are built from.

    C++ iterators are objects with a [Next()] method; here an iterator is a
    value of a state type and [Next] returns the result together with the
    iterator after the call and the world after the call.  The world carries
    what a call can reach through pointers, and a ghost log of the calls made
    to the collaborators (evaluator, projector, fragments), which the source
    does not keep and which only serves to count and order calls. *)

From Stdlib Require Import List String Bool Arith ZArith Lia.
Import ListNotations.

Set Implicit Arguments.

(** ** arrow::Status and arrow::Result *)

(** Modelled from the spec: the status codes of [arrow::Status] (status.h is
    absent), a few of them, for the failures of §7. *)
Inductive StatusCode : Type :=
| Invalid
| TypeError
| KeyError
| IOError
| NotImplemented.

(** Modelled from the spec: a non-OK [arrow::Status], a code and a message
    (§7: every failure is returned as an error result). *)
Record Status : Type := mkStatus { code : StatusCode; msg : string }.

(** Modelled from the spec: [arrow::Result<T>] (result.h is absent), a value
    or the status that prevented it (§6, §7). *)
Inductive Result (T : Type) : Type :=
| Ok (v : T)
| Err (s : Status).
Arguments Ok {T} v.
Arguments Err {T} s.

(** Modelled from the spec: [Result<T>::Map] (result.h is absent): apply [m]
    to the stored value, or propagate the stored error without calling [m]
    (§4.1: a failed evaluation is yielded, the selection is applied
    otherwise). *)
Definition Result_Map {W T U : Type}
    (r : Result T) (m : T -> W -> Result U * W) (w : W) : Result U * W :=
  match r with
  | Ok v => m v w
  | Err s => (Err s, w)
  end.

Definition is_ok {T : Type} (r : Result T) : bool :=
  match r with Ok _ => true | Err _ => false end.

(** ** Iterators (arrow/util/iterator.h) *)

(** [Iterator<T>::Next()] returns [Result<T>], where a distinguished value of
    [T] (a null pointer, for the pointers iterated here) marks the end:
    [Ok None] is that end marker, [Ok (Some x)] an element and [Err s] a
    failed pull. *)
Class Iterator (W It T : Type) : Type :=
  Next : It -> W -> Result (option T) * It * W.
Arguments Next {W It T _} it w.

(** A function object: calling it may change the world and, for a mutable
    lambda, its own captures; the function object after the call is returned
    with the result. *)
Class Callable (W Fn I O : Type) : Type :=
  call : Fn -> I -> W -> Result O * Fn * W.
Arguments call {W Fn I O _} fn i w.

(** Modelled from the spec: [MakeVectorIterator], the iterator over the
    elements of a vector, which stands for the finite lazy sequences handed in
    by collaborators (§3 Lazy Sequence, §9 "next: produces Option<Result<T>>").
    Each element is a value or a failed pull; past the last element [Next]
    keeps returning the end marker. *)
Definition VectorIterator (T : Type) : Type := list (Result T).

#[export] Instance VectorIterator_Next {W T : Type} : Iterator W (VectorIterator T) T :=
  fun it w =>
    match it with
    | [] => (Ok None, [], w)
    | Ok x :: rest => (Ok (Some x), rest, w)
    | Err s :: rest => (Err s, rest, w)
    end.

(** Modelled from the spec: the class template [MapIterator] behind
    [MakeMapIterator] and [MakeMaybeMapIterator] (arrow/util/iterator.h is
    absent).  It owns a function object and an input iterator; [Next] pulls
    one input element, passes a failed pull and the end marker on, and
    otherwise returns what the function returns for the element (§4.1, §4.2:
    "for each pulled input batch").  A failed element is yielded as a single
    element and the next pull asks the input again, as §4.4 and §7 say of the
    sequence over fragments, which [GetScanTaskIterator] builds with this
    combinator.  That a task's batch sequence ends at its first failure
    (§4.1, §4.2, §7) is not a state of this combinator here: it is the
    protocol of the consumer, [visit] below. *)
Record MapIterator (Fn It : Type) : Type :=
  mkMapIterator { map_ : Fn; it_ : It }.

#[export] Instance MapIterator_Next {W Fn It I O : Type}
    {HI : Iterator W It I} {HF : Callable W Fn I O} :
    Iterator W (MapIterator Fn It) O :=
  fun m w =>
    match Next (it_ m) w with
    | (Err s, it', w') => (Err s, mkMapIterator (map_ m) it', w')
    | (Ok None, it', w') => (Ok None, mkMapIterator (map_ m) it', w')
    | (Ok (Some i), it', w') =>
        match call (map_ m) i w' with
        | (Ok o, fn', w'') => (Ok (Some o), mkMapIterator fn' it', w'')
        | (Err s, fn', w'') => (Err s, mkMapIterator fn' it', w'')
        end
    end.

(** [MakeMapIterator] is for a function that cannot fail, whose value is
    wrapped into a successful result; [MakeMaybeMapIterator] for one that
    returns a [Result].  Both build the same [MapIterator]. *)
Definition MakeMapIterator {Fn It : Type} (map : Fn) (it : It) : MapIterator Fn It :=
  mkMapIterator map it.

Definition MakeMaybeMapIterator {Fn It : Type} (map : Fn) (it : It) : MapIterator Fn It :=
  mkMapIterator map it.

(** Modelled from the spec: the class template [FlattenIterator] behind
    [MakeFlattenIterator] (absent).  §9: "flattening is implemented as state
    carrying current inner sequence, outer sequence, advancing the inner one
    first"; §4.4: a failed pull of the outer sequence is yielded as one
    element and the next pull asks the outer sequence again.  [child_ = None]
    is the end-marker iterator. *)
Record FlattenIterator (ItC ItP : Type) : Type :=
  mkFlattenIterator { child_ : option ItC; parent_ : ItP }.

Definition MakeFlattenIterator {ItC ItP : Type} (it : ItP) : FlattenIterator ItC ItP :=
  mkFlattenIterator None it.

(** Modelled from the spec: [FlattenIterator::Next] (§9, §4.4), which pulls
    from the current child and, once the child is used up or when there is
    none, pops the next child from the parent and starts again.  It calls
    itself after it has fetched a child and after a child is used up; [fuel]
    bounds these calls, and [None] means the bound was reached. *)
Fixpoint FlattenIterator_Next {W ItC ItP T : Type}
    {HP : Iterator W ItP ItC} {HC : Iterator W ItC T}
    (fuel : nat) (f : FlattenIterator ItC ItP) (w : W)
    : option (Result (option T) * FlattenIterator ItC ItP * W) :=
  match fuel with
  | 0 => None
  | S fuel' =>
      match child_ f with
      | None =>
          (* pop from the parent *)
          match Next (parent_ f) w with
          | (Err s, p', w') => Some (Err s, mkFlattenIterator None p', w')
          | (Ok None, p', w') => Some (Ok None, mkFlattenIterator None p', w')
          | (Ok (Some c), p', w') =>
              FlattenIterator_Next fuel' (mkFlattenIterator (Some c) p') w'
          end
      | Some c =>
          (* pop from the child and check for depletion *)
          match Next c w with
          | (Err s, c', w') => Some (Err s, mkFlattenIterator (Some c') (parent_ f), w')
          | (Ok None, _, w') =>
              FlattenIterator_Next fuel' (mkFlattenIterator None (parent_ f)) w'
          | (Ok (Some x), c', w') =>
              Some (Ok (Some x), mkFlattenIterator (Some c') (parent_ f), w')
          end
      end
  end.

(** ** Consumers *)

(** The results of the first [n] calls of [Next], the iterator and the world
    after them. *)
Fixpoint pull {W It T : Type} {HI : Iterator W It T} (n : nat) (it : It) (w : W)
    : list (Result (option T)) * It * W :=
  match n with
  | 0 => ([], it, w)
  | S n' =>
      match Next it w with
      | (r, it', w') =>
          match pull n' it' w' with
          | (rs, it'', w'') => (r :: rs, it'', w'')
          end
      end
  end.

(** Modelled from the spec: the consumer of a task's batch sequence (the
    scheduler of §5 and §6, absent).  It pulls until the end marker or the
    first failure, which ends that task's sequence (§4.3: unexecuted,
    executing, exhausted/error; §7: a failure inside a task's batch sequence
    ends that task's sequence).  [n] bounds the number of pulls; [Pending]
    means the bound was reached first. *)
Inductive Outcome : Type :=
| Exhausted
| Failed (s : Status)
| Pending.

(** Modelled from the spec: one visit of that consumer with at most [n] pulls:
    the batches it gets, how the visit ended, the iterator and the world after
    the last pull. *)
Fixpoint visit {W It T : Type} {HI : Iterator W It T} (n : nat) (it : It) (w : W)
    : list T * Outcome * It * W :=
  match n with
  | 0 => ([], Pending, it, w)
  | S n' =>
      match Next it w with
      | (Ok None, it', w') => ([], Exhausted, it', w')
      | (Err s, it', w') => ([], Failed s, it', w')
      | (Ok (Some x), it', w') =>
          match visit n' it' w' with
          | (xs, outcome, it'', w'') => (x :: xs, outcome, it'', w'')
          end
      end
  end.

(** The results of the first [n] pulls of a flattened iterator, each with
    [fuel], the iterator and the world after them. *)
Fixpoint FlattenIterator_pull {W ItC ItP T : Type}
    {HP : Iterator W ItP ItC} {HC : Iterator W ItC T}
    (fuel n : nat) (f : FlattenIterator ItC ItP) (w : W)
    : option (list (Result (option T)) * FlattenIterator ItC ItP * W) :=
  match n with
  | 0 => Some ([], f, w)
  | S n' =>
      match FlattenIterator_Next fuel f w with
      | None => None
      | Some (r, f', w') =>
          match FlattenIterator_pull fuel n' f' w' with
          | Some (rs, f'', w'') => Some (r :: rs, f'', w'')
          | None => None
          end
      end
  end.

(** Pull a flattened iterator until its end marker, keeping every element and
    every failed pull in order: at most [pulls] pulls, each with [fuel]. *)
Fixpoint FlattenIterator_collect_aux {W ItC ItP T : Type}
    {HP : Iterator W ItP ItC} {HC : Iterator W ItC T}
    (fuel pulls : nat) (f : FlattenIterator ItC ItP) (w : W)
    : option (list (Result T) * W) :=
  match pulls with
  | 0 => None
  | S pulls' =>
      match FlattenIterator_Next fuel f w with
      | None => None
      | Some (Ok None, _, w') => Some ([], w')
      | Some (Ok (Some x), f', w') =>
          match FlattenIterator_collect_aux fuel pulls' f' w' with
          | Some (rs, w'') => Some (Ok x :: rs, w'')
          | None => None
          end
      | Some (Err s, f', w') =>
          match FlattenIterator_collect_aux fuel pulls' f' w' with
          | Some (rs, w'') => Some (Err s :: rs, w'')
          | None => None
          end
      end
  end.

Definition FlattenIterator_collect {W ItC ItP T : Type}
    {HP : Iterator W ItP ItC} {HC : Iterator W ItC T}
    (fuel : nat) (f : FlattenIterator ItC ItP) (w : W)
    : option (list (Result T) * W) :=
  FlattenIterator_collect_aux fuel fuel f w.

(** ** Collaborators *)

(** Modelled from the spec: the interfaces consumed from collaborators (§6),
    whose headers (filter.h, partition.h, projector.h, record_batch.h) are
    absent; the pipeline is stated over any implementation of them.
    - [Assume]: [Expression::Assume] on a present predicate;
    - [Evaluate], [Filter]: the virtual methods of [ExpressionEvaluator];
    - [Project]: [RecordBatchProjector::Project], a non-const method: it
      returns the projector after the call, whose scratch state it may have
      written (§3 Projector: "mutable, non-thread-safe");
    - [SetDefaultValuesFromKeys]: [KeyValuePartitioning::SetDefaultValuesFromKeys],
      which writes the projector it is given and returns a status. *)
Class Collaborators : Type := {
  Expression : Type;
  RecordBatch : Type;
  Datum : Type;
  RecordBatchProjector : Type;
  ExpressionEvaluator : Type;
  MemoryPool : Type;
  Assume : Expression -> Expression -> Expression;
  Evaluate : ExpressionEvaluator -> Expression -> RecordBatch -> MemoryPool -> Result Datum;
  Filter : ExpressionEvaluator -> Datum -> RecordBatch -> Result RecordBatch;
  Project : RecordBatchProjector -> RecordBatch -> MemoryPool ->
            Result RecordBatch * RecordBatchProjector;
  SetDefaultValuesFromKeys : Expression -> RecordBatchProjector ->
                             Result unit * RecordBatchProjector
}.

Section Dataset.
Context {C : Collaborators}.

(** A [std::shared_ptr<Expression>]: [None] is the null pointer. *)
Definition ExpressionPtr : Type := option Expression.

(** Modelled from the spec: [Expression::Assume] on a [shared_ptr] (filter.h
    is absent).  §9: with no partition predicate the specialization reduces to
    the global filter unchanged. *)
Definition Assume_ptr (filter : Expression) (given : ExpressionPtr) : Expression :=
  match given with
  | Some p => Assume filter p
  | None => filter
  end.

(** Modelled from the spec: [ScanOptions] (scanner.h is absent; §3 Scan
    Options), with the members this file reads: the global filter, the
    evaluator and the projector template. *)
Record ScanOptions : Type := mkScanOptions {
  filter : Expression;
  evaluator : ExpressionEvaluator;
  projector : RecordBatchProjector
}.

(** Modelled from the spec: [ScanContext] (scanner.h is absent; §3 Scan
    Context): the memory pool. *)
Record ScanContext : Type := mkScanContext { pool : MemoryPool }.

Definition RecordBatchIterator : Type := VectorIterator RecordBatch.

(** Modelled from the spec: the interface [ScanTask] (scanner.h is absent; §3
    Scan Task, §6) as the wrapped task presents it: its options and context,
    and what its virtual [Execute()] returns, a failure to start or the raw
    sequence of batches. *)
Record ScanTask : Type := mkScanTask {
  options : ScanOptions;
  context : ScanContext;
  ScanTask_Execute : Result RecordBatchIterator
}.

(** The members of [FilterAndProjectScanTask]; [options_] and [context_] are
    those of its base class [ScanTask]. *)
Record FilterAndProjectScanTask : Type := mkFilterAndProjectScanTask {
  options_ : ScanOptions;
  context_ : ScanContext;
  task_ : ScanTask;
  partition_ : ExpressionPtr;
  filter_ : ExpressionPtr;
  projector_ : RecordBatchProjector
}.

(** The constructor: options and context are the wrapped task's, [filter_] is
    null and [projector_] is copy-constructed from the options' projector. *)
Definition FilterAndProjectScanTask_new (task : ScanTask) (partition : ExpressionPtr)
    : FilterAndProjectScanTask :=
  {| options_ := options task;
     context_ := context task;
     task_ := task;
     partition_ := partition;
     filter_ := None;
     projector_ := projector (options task) |}.

(** Ghost log: one entry per call made to a collaborator. *)
Inductive Event : Type :=
| CallExecute (task : ScanTask)
| CallAssume (filter : Expression) (given : ExpressionPtr)
| CallEvaluate (filter : Expression) (batch : RecordBatch)
| CallFilter (selection : Datum) (batch : RecordBatch)
| CopyProjector (source : RecordBatchProjector)
| CallProject (local_projector : RecordBatchProjector) (batch : RecordBatch)
| CallSetDefaultValuesFromKeys (partition : Expression).

(** What a batch iterator of a decorated task can reach: the task object and
    the ghost log. *)
Record World : Type := mkWorld {
  this : FilterAndProjectScanTask;
  calls : list Event
}.

Definition tick (e : Event) (w : World) : World :=
  {| this := this w; calls := calls w ++ [e] |}.

(** The projector objects reachable from a task, as pointer values:
    [&projector_] and [&options()->projector]. *)
Inductive ProjectorPtr : Type :=
| AddrOf_projector_
| AddrOf_options_projector.

Definition deref (p : ProjectorPtr) (w : World) : RecordBatchProjector :=
  match p with
  | AddrOf_projector_ => projector_ (this w)
  | AddrOf_options_projector => projector (options_ (this w))
  end.

(** *** FilterRecordBatch *)

(** The closure [[&filter, &evaluator, pool]]; the referenced expression and
    evaluator are immutable, so the references are held as their values. *)
Record FilterRecordBatch_fn : Type := mkFilterRecordBatch_fn {
  cap_filter : Expression;
  cap_evaluator : ExpressionEvaluator;
  cap_pool : MemoryPool
}.

#[export] Instance FilterRecordBatch_call :
    Callable World FilterRecordBatch_fn RecordBatch RecordBatch :=
  fun fn in_ w =>
    let w1 := tick (CallEvaluate (cap_filter fn) in_) w in
    match Result_Map (Evaluate (cap_evaluator fn) (cap_filter fn) in_ (cap_pool fn))
            (fun selection w' =>
               (Filter (cap_evaluator fn) selection in_, tick (CallFilter selection in_) w'))
            w1 with
    | (r, w2) => (r, fn, w2)
    end.

Definition FilterRecordBatch {It : Type} (it : It) (evaluator : ExpressionEvaluator)
    (filter : Expression) (pool : MemoryPool) : MapIterator FilterRecordBatch_fn It :=
  MakeMaybeMapIterator (mkFilterRecordBatch_fn filter evaluator pool) it.

(** *** ProjectRecordBatch *)

(** The closure [[=]]: the pointer [projector] and [pool], by value. *)
Record ProjectRecordBatch_fn : Type := mkProjectRecordBatch_fn {
  cap_projector : ProjectorPtr;
  cap_pool' : MemoryPool
}.

(** The body runs once per call: [local_projector] is copy-constructed from
    [*projector] as it is at that moment, [Project] runs on the copy, and the
    copy goes out of scope. *)
#[export] Instance ProjectRecordBatch_call :
    Callable World ProjectRecordBatch_fn RecordBatch RecordBatch :=
  fun fn in_ w =>
    let local_projector := deref (cap_projector fn) w in
    let w1 := tick (CopyProjector local_projector) w in
    match Project local_projector in_ (cap_pool' fn) with
    | (r, _) => (r, fn, tick (CallProject local_projector in_) w1)
    end.

Definition ProjectRecordBatch {It : Type} (it : It) (projector : ProjectorPtr)
    (pool : MemoryPool) : MapIterator ProjectRecordBatch_fn It :=
  MakeMaybeMapIterator (mkProjectRecordBatch_fn projector pool) it.

(** *** FilterAndProjectScanTask::Execute *)

Definition FilteredIterator : Type := MapIterator FilterRecordBatch_fn RecordBatchIterator.
Definition ProjectedIterator : Type := MapIterator ProjectRecordBatch_fn FilteredIterator.

Definition set_filter_ (f : ExpressionPtr) (w : World) : World :=
  let t := this w in
  {| this := {| options_ := options_ t; context_ := context_ t; task_ := task_ t;
                partition_ := partition_ t; filter_ := f;
                projector_ := projector_ t |};
     calls := calls w |}.

Definition set_projector_ (p : RecordBatchProjector) (w : World) : World :=
  let t := this w in
  {| this := {| options_ := options_ t; context_ := context_ t; task_ := task_ t;
                partition_ := partition_ t; filter_ := filter_ t;
                projector_ := p |};
     calls := calls w |}.

(** [Execute()] on the task [this w]. *)
Definition Execute (w : World) : Result ProjectedIterator * World :=
  (* ARROW_ASSIGN_OR_RAISE(auto it, task_->Execute()); *)
  let w := tick (CallExecute (task_ (this w))) w in
  match ScanTask_Execute (task_ (this w)) with
  | Err s => (Err s, w)
  | Ok it =>
      (* filter_ = options()->filter->Assume(partition_); *)
      let w := tick (CallAssume (filter (options_ (this w))) (partition_ (this w))) w in
      let specialized := Assume_ptr (filter (options_ (this w))) (partition_ (this w)) in
      let w := set_filter_ (Some specialized) w in
      (* the pointee of filter_ is passed by reference *)
      let filter_it :=
        FilterRecordBatch it (evaluator (options_ (this w))) specialized
          (pool (context_ (this w))) in
      match partition_ (this w) with
      | Some partition =>
          (* RETURN_NOT_OK: SetDefaultValuesFromKeys on the pointee of
             partition_ and on &projector_ *)
          let w := tick (CallSetDefaultValuesFromKeys partition) w in
          match SetDefaultValuesFromKeys partition (projector_ (this w)) with
          | (Err s, p') => (Err s, set_projector_ p' w)
          | (Ok _, p') =>
              (Ok (ProjectRecordBatch filter_it AddrOf_projector_
                     (pool (context_ (this w)))),
               set_projector_ p' w)
          end
      | None =>
          (Ok (ProjectRecordBatch filter_it AddrOf_projector_
                 (pool (context_ (this w)))), w)
      end
  end.

(** *** GetScanTaskIterator *)

(** Passing [std::move(x)] to a by-value [shared_ptr] parameter: from a
    mutable object the move constructor runs and leaves the source null; from
    a const object overload resolution selects the copy constructor and the
    source keeps its value. *)
Inductive Constness : Type := ConstObject | MutableObject.

Definition move_into_parameter {A : Type} (c : Constness) (source : option A)
    : option A * option A :=
  match c with
  | ConstObject => (source, source)
  | MutableObject => (source, None)
  end.

(** The closure [wrap_scan_task = [partition](task) {...}].  It is not
    declared [mutable], so its call operator is const and the captured
    [partition] is a const object inside the body. *)
Record wrap_scan_task_fn : Type := mkwrap_scan_task_fn {
  cap_partition : ExpressionPtr
}.

#[export] Instance wrap_scan_task_call {W : Type} :
    Callable W wrap_scan_task_fn ScanTask FilterAndProjectScanTask :=
  fun fn task w =>
    match move_into_parameter ConstObject (cap_partition fn) with
    | (partition, captured) =>
        (Ok (FilterAndProjectScanTask_new task partition),
         mkwrap_scan_task_fn captured, w)
    end.

Definition ScanTaskIterator : Type := VectorIterator ScanTask.

(** Modelled from the spec: the interface [Fragment] (dataset.h is absent; §3
    Data Fragment, §6): its partition expression and what its virtual [Scan]
    returns, a failure or the sequence of raw scan tasks. *)
Record Fragment : Type := mkFragment {
  partition_expression : ExpressionPtr;
  Scan : ScanOptions -> ScanContext -> Result ScanTaskIterator
}.

Definition FragmentIterator : Type := VectorIterator Fragment.

(** Ghost log of the task level: the fragments whose [Scan] was called, in
    call order. *)
Definition ScanLog : Type := list Fragment.

(** The closure [fn = [options, context](fragment) {...}]. *)
Record fn_closure : Type := mkfn_closure {
  cap_options : ScanOptions;
  cap_context : ScanContext
}.

Definition WrappedIterator : Type := MapIterator wrap_scan_task_fn ScanTaskIterator.

#[export] Instance fn_call : Callable ScanLog fn_closure Fragment WrappedIterator :=
  fun fn fragment w =>
    let w := w ++ [fragment] in
    match Scan fragment (cap_options fn) (cap_context fn) with
    | Err s => (Err s, fn, w)
    | Ok scan_task_it =>
        let partition := partition_expression fragment in
        let wrap_scan_task := mkwrap_scan_task_fn partition in
        (Ok (MakeMapIterator wrap_scan_task scan_task_it), fn, w)
    end.

Definition GetScanTaskIterator (fragments : FragmentIterator)
    (options : ScanOptions) (context : ScanContext)
    : FlattenIterator WrappedIterator (MapIterator fn_closure FragmentIterator) :=
  let fn := mkfn_closure options context in
  let maybe_scantask_it := MakeMaybeMapIterator fn fragments in
  MakeFlattenIterator maybe_scantask_it.

End Dataset.

(** ** Selections and rows *)

(** The elements of [l] whose bit in [mask] is set. *)
Fixpoint take_mask {A : Type} (mask : list bool) (l : list A) : list A :=
  match mask, l with
  | b :: mask', x :: l' => if b then x :: take_mask mask' l' else take_mask mask' l'
  | _, _ => []
  end.

(** Modelled from the spec: the contract of the evaluator's [Filter] (§6, §4.1;
    the evaluator's classes are absent).  A selection value stands for a
    boolean mask over the rows of the batch it was computed for, and applying
    it keeps the rows whose bit is set. *)
Class EvaluatorContract (C : Collaborators) : Type := {
  Row : Type;
  rows : RecordBatch -> list Row;
  selection_mask : Datum -> list bool;
  Filter_rows : forall ev selection batch out,
    Filter ev selection batch = Ok out ->
    rows out = take_mask (selection_mask selection) (rows batch)
}.

(** Modelled from the spec: the contract of the projector and of the
    partition keys (§3 Projector, §4.3 step 4, §6; projector.h and partition.h
    are absent).  A partition predicate binds columns to values;
    [SetDefaultValuesFromKeys], when it succeeds, makes the value bound to a
    column of the target schema that column's default; filtering keeps the
    columns of a batch; and a successful projection of a batch without a
    column of the target schema that has a default yields a batch in which
    every row of that column is the default ([constant_column]). *)
Class PartitionDefaultsContract (C : Collaborators) : Type := {
  Column : Type;
  Value : Type;
  key_value : Expression -> Column -> option Value;
  in_schema : RecordBatchProjector -> Column -> bool;
  default_value : RecordBatchProjector -> Column -> option Value;
  has_column : RecordBatch -> Column -> bool;
  constant_column : RecordBatch -> Column -> Value -> Prop;
  SetDefaultValuesFromKeys_sets : forall partition proj k v,
    is_ok (fst (SetDefaultValuesFromKeys partition proj)) = true ->
    key_value partition k = Some v ->
    in_schema proj k = true ->
    in_schema (snd (SetDefaultValuesFromKeys partition proj)) k = true
    /\ default_value (snd (SetDefaultValuesFromKeys partition proj)) k = Some v;
  Filter_keeps_columns : forall ev selection batch out k,
    Filter ev selection batch = Ok out ->
    has_column out k = has_column batch k;
  Project_inserts_default : forall proj batch mem out k v,
    fst (Project proj batch mem) = Ok out ->
    in_schema proj k = true ->
    has_column batch k = false ->
    default_value proj k = Some v ->
    constant_column out k v
}.

(** ** A reference implementation of the collaborators *)

Module Model.

(** Modelled from the spec: columnar batches, predicate expressions, the
    evaluator, the projector and the partition keys (§3, §6), none of whose
    sources are present.  Small, executable stand-ins that follow the spec's
    words; the pipeline above does not depend on them. *)
Inductive Scalar : Type :=
| Null
| Int (z : Z)
| Str (s : string).

Definition scalar_eqb (a b : Scalar) : bool :=
  match a, b with
  | Null, Null => true
  | Int x, Int y => Z.eqb x y
  | Str x, Str y => String.eqb x y
  | _, _ => false
  end.

Fixpoint lookup {A : Type} (name : string) (l : list (string * A)) : option A :=
  match l with
  | [] => None
  | (k, v) :: rest => if String.eqb name k then Some v else lookup name rest
  end.

(** Modelled from the spec: §3 Columnar Batch, named columns sharing one row
    count ([RecordBatch], record_batch.h is absent). *)
Record Batch : Type := mkBatch {
  columns : list (string * list Scalar);
  num_rows : nat
}.

Definition column (name : string) (b : Batch) : option (list Scalar) :=
  lookup name (columns b).

Definition well_formed (b : Batch) : bool :=
  forallb (fun c => List.length (snd c) =? num_rows b) (columns b).

(** The rows of [n]-row columns, each row in column order. *)
Fixpoint rows_of (n : nat) (cols : list (list Scalar)) : list (list Scalar) :=
  match n with
  | 0 => []
  | S n' => map (hd Null) cols :: rows_of n' (map (@tl Scalar) cols)
  end.

Definition batch_rows (b : Batch) : list (list Scalar) :=
  rows_of (num_rows b) (map snd (columns b)).

(** Modelled from the spec: §3 Predicate Expression, an immutable tree
    ([Expression], filter.h is absent). *)
Inductive Expr : Type :=
| scalar (b : bool)
| equal (field : string) (value : Scalar)
| and_ (l r : Expr)
| or_ (l r : Expr)
| not_ (e : Expr).

(** Modelled from the spec: the key/value bindings of a partition predicate
    (§4.3 step 4; partition.h is absent): the equalities of its conjunction. *)
Fixpoint keys (e : Expr) : list (string * Scalar) :=
  match e with
  | equal f v => [(f, v)]
  | and_ l r => keys l ++ keys r
  | _ => []
  end.

(** Modelled from the spec: §6 [assume] ([Expression::Assume], absent):
    simplify [e] knowing that [given] holds: a comparison of a field bound by
    [given] is decided. *)
Fixpoint assume (e given : Expr) : Expr :=
  match e with
  | scalar b => scalar b
  | equal f v =>
      match lookup f (keys given) with
      | Some v' => scalar (scalar_eqb v v')
      | None => equal f v
      end
  | and_ l r => and_ (assume l given) (assume r given)
  | or_ l r => or_ (assume l given) (assume r given)
  | not_ e' => not_ (assume e' given)
  end.

Fixpoint zip_with {A B D : Type} (f : A -> B -> D) (l : list A) (r : list B) : list D :=
  match l, r with
  | a :: l', b :: r' => f a b :: zip_with f l' r'
  | _, _ => []
  end.

(** Modelled from the spec: §6 [evaluate] ([ExpressionEvaluator::Evaluate],
    absent): the mask of the rows on which the predicate is true; a
    comparison on a column the batch does not have is an evaluation failure
    (§7 (c)). *)
Fixpoint evaluate (e : Expr) (b : Batch) : Result (list bool) :=
  match e with
  | scalar c => Ok (repeat c (num_rows b))
  | equal f v =>
      match column f b with
      | Some col => Ok (map (scalar_eqb v) col)
      | None => Err (mkStatus Invalid "field not found in batch")
      end
  | and_ l r =>
      match evaluate l b, evaluate r b with
      | Ok ml, Ok mr => Ok (zip_with andb ml mr)
      | Err s, _ => Err s
      | _, Err s => Err s
      end
  | or_ l r =>
      match evaluate l b, evaluate r b with
      | Ok ml, Ok mr => Ok (zip_with orb ml mr)
      | Err s, _ => Err s
      | _, Err s => Err s
      end
  | not_ e' =>
      match evaluate e' b with
      | Ok m => Ok (map negb m)
      | Err s => Err s
      end
  end.

(** Modelled from the spec: §6 [filter] ([ExpressionEvaluator::Filter],
    absent): apply a mask to every column; the mask must have one bit per
    row. *)
Definition filter_batch (mask : list bool) (b : Batch) : Result Batch :=
  if (List.length mask =? num_rows b) && well_formed b then
    Ok {| columns := map (fun c => (fst c, take_mask mask (snd c))) (columns b);
          num_rows := List.length (List.filter (fun x : bool => x) mask) |}
  else Err (mkStatus Invalid "selection does not match the batch").

(** Modelled from the spec: §3 Projector ([RecordBatchProjector],
    projector.h is absent): the target schema, the default values of columns
    that may be absent from the input, and scratch state written by
    [project] (the capacity of the buffer for materialized columns). *)
Record Projector : Type := mkProjector {
  to_schema : list string;
  defaults : list (string * Scalar);
  scratch : nat
}.

Fixpoint project_columns (schema : list string) (dflt : list (string * Scalar))
    (b : Batch) : Result (list (string * list Scalar)) :=
  match schema with
  | [] => Ok []
  | name :: rest =>
      let col :=
        match column name b with
        | Some c => Ok c
        | None =>
            match lookup name dflt with
            | Some v => Ok (repeat v (num_rows b))
            | None => Err (mkStatus TypeError "missing column with no default")
            end
        end in
      match col, project_columns rest dflt b with
      | Ok c, Ok cols => Ok ((name, c) :: cols)
      | Err s, _ => Err s
      | _, Err s => Err s
      end
  end.

(** Modelled from the spec: §6 [project] ([RecordBatchProjector::Project],
    absent): reshape to the target schema, inserting the configured default
    for a column the input lacks (§7 (d): a missing column with no default
    fails); the scratch buffer grows to the batch. *)
Definition project (p : Projector) (b : Batch) (pool : unit)
    : Result Batch * Projector :=
  (match project_columns (to_schema p) (defaults p) b with
   | Ok cols => Ok {| columns := cols; num_rows := num_rows b |}
   | Err s => Err s
   end,
   {| to_schema := to_schema p; defaults := defaults p;
      scratch := Nat.max (scratch p) (num_rows b) |}).

Definition set_default (kv : string * Scalar) (p : Projector) : Projector :=
  {| to_schema := to_schema p; defaults := kv :: defaults p; scratch := scratch p |}.

(** Modelled from the spec: §6 [setDefaultsFromPartitionKeys]
    ([KeyValuePartitioning::SetDefaultValuesFromKeys], absent): each binding
    whose key is a column of the target schema becomes that column's default;
    a later binding replaces an earlier one. *)
Definition set_defaults_from_keys (e : Expr) (p : Projector) : Result unit * Projector :=
  (Ok tt,
   fold_left
     (fun acc kv =>
        if existsb (String.eqb (fst kv)) (to_schema acc) then set_default kv acc else acc)
     (keys e) p).

(** What the projector's contract speaks of, on these stand-ins: the value a
    predicate binds a column to (the latest binding, which
    [set_defaults_from_keys] lets win), whether a column is in a projector's
    target schema, a projector's default for a column, whether a batch has a
    column, and a column holding one value in every row. *)
Definition binding (e : Expr) (k : string) : option Scalar := lookup k (rev (keys e)).

Definition targets (p : Projector) (k : string) : bool :=
  existsb (String.eqb k) (to_schema p).

Definition default_of (p : Projector) (k : string) : option Scalar :=
  lookup k (defaults p).

Definition has (b : Batch) (k : string) : bool :=
  match column k b with
  | Some _ => true
  | None => false
  end.

Definition constant (b : Batch) (k : string) (v : Scalar) : Prop :=
  column k b = Some (repeat v (num_rows b)).

Definition collaborators : Collaborators :=
  {| Expression := Expr;
     RecordBatch := Batch;
     Datum := list bool;
     RecordBatchProjector := Projector;
     ExpressionEvaluator := unit;
     MemoryPool := unit;
     Assume := assume;
     Evaluate := fun _ e b _ => evaluate e b;
     Filter := fun _ selection b => filter_batch selection b;
     Project := project;
     SetDefaultValuesFromKeys := set_defaults_from_keys |}.

End Model.

(** ** What the pipeline is compared with *)

Section Expected.
Context {C : Collaborators}.

(** What one element of the raw sequence becomes: evaluate, filter, then
    project with [local_projector]. *)
Definition item_result (ev : ExpressionEvaluator) (predicate : Expression)
    (pool : MemoryPool) (local_projector : RecordBatchProjector)
    (item : Result RecordBatch) : Result (option RecordBatch) :=
  match item with
  | Err s => Err s
  | Ok batch =>
      match Evaluate ev predicate batch pool with
      | Err s => Err s
      | Ok selection =>
          match Filter ev selection batch with
          | Err s => Err s
          | Ok filtered =>
              match fst (Project local_projector filtered pool) with
              | Ok out => Ok (Some out)
              | Err s => Err s
              end
          end
      end
  end.

(** The calls made for one element of the raw sequence, in order. *)
Definition item_events (ev : ExpressionEvaluator) (predicate : Expression)
    (pool : MemoryPool) (local_projector : RecordBatchProjector)
    (item : Result RecordBatch) : list Event :=
  match item with
  | Err _ => []
  | Ok batch =>
      CallEvaluate predicate batch ::
      match Evaluate ev predicate batch pool with
      | Err _ => []
      | Ok selection =>
          CallFilter selection batch ::
          match Filter ev selection batch with
          | Err _ => []
          | Ok filtered =>
              [CopyProjector local_projector; CallProject local_projector filtered]
          end
      end
  end.

Definition is_CopyProjector (e : Event) : bool :=
  match e with CopyProjector _ => true | _ => false end.

Definition is_CallAssume (e : Event) : bool :=
  match e with CallAssume _ _ => true | _ => false end.

Definition is_CallSetDefaultValuesFromKeys (e : Event) : bool :=
  match e with CallSetDefaultValuesFromKeys _ => true | _ => false end.

Definition is_CallProject (e : Event) : bool :=
  match e with CallProject _ _ => true | _ => false end.

Definition count_events (p : Event -> bool) (l : list Event) : nat :=
  List.length (List.filter p l).

(** The world after further calls. *)
Definition add_calls (es : list Event) (w : World) : World :=
  {| this := this w; calls := calls w ++ es |}.

(** The stages [Execute] builds for the task [t] over the raw sequence:
    projection, through [&projector_], over filtering by the specialized
    predicate. *)
Definition stages_of (t : FilterAndProjectScanTask) (raw : RecordBatchIterator)
    : ProjectedIterator :=
  ProjectRecordBatch
    (FilterRecordBatch raw (evaluator (options_ t))
       (Assume_ptr (filter (options_ t)) (partition_ t)) (pool (context_ t)))
    AddrOf_projector_ (pool (context_ t)).

Definition with_filter_ (f : ExpressionPtr) (t : FilterAndProjectScanTask)
    : FilterAndProjectScanTask :=
  {| options_ := options_ t; context_ := context_ t; task_ := task_ t;
     partition_ := partition_ t; filter_ := f; projector_ := projector_ t |}.

Definition with_projector_ (p : RecordBatchProjector) (t : FilterAndProjectScanTask)
    : FilterAndProjectScanTask :=
  {| options_ := options_ t; context_ := context_ t; task_ := task_ t;
     partition_ := partition_ t; filter_ := filter_ t; projector_ := p |}.

(** What a projection stage over a vector yields for one element. *)
Definition project_result (pool : MemoryPool) (local_projector : RecordBatchProjector)
    (item : Result RecordBatch) : Result (option RecordBatch) :=
  match item with
  | Err s => Err s
  | Ok batch =>
      match fst (Project local_projector batch pool) with
      | Ok out => Ok (Some out)
      | Err s => Err s
      end
  end.

Definition project_events (local_projector : RecordBatchProjector)
    (item : Result RecordBatch) : list Event :=
  match item with
  | Err _ => []
  | Ok batch => [CopyProjector local_projector; CallProject local_projector batch]
  end.

(** A value or an error as [Next] returns it. *)
Definition lift_result {T : Type} (r : Result T) : Result (option T) :=
  match r with
  | Ok x => Ok (Some x)
  | Err s => Err s
  end.

(** What a filter stage over a vector yields for one element, and the calls
    it makes for it. *)
Definition filter_result (ev : ExpressionEvaluator) (predicate : Expression)
    (pool : MemoryPool) (item : Result RecordBatch) : Result (option RecordBatch) :=
  match item with
  | Err s => Err s
  | Ok batch =>
      match Evaluate ev predicate batch pool with
      | Err s => Err s
      | Ok selection => lift_result (Filter ev selection batch)
      end
  end.

Definition filter_events (ev : ExpressionEvaluator) (predicate : Expression)
    (pool : MemoryPool) (item : Result RecordBatch) : list Event :=
  match item with
  | Err _ => []
  | Ok batch =>
      CallEvaluate predicate batch ::
      match Evaluate ev predicate batch pool with
      | Err _ => []
      | Ok selection => [CallFilter selection batch]
      end
  end.

(** The calls that reach a projector. *)
Definition is_projector_event (e : Event) : bool :=
  match e with
  | CopyProjector _ | CallProject _ _ | CallSetDefaultValuesFromKeys _ => true
  | _ => false
  end.

(** What one raw scan task of a fragment becomes. *)
Definition wrap_result (partition : ExpressionPtr) (r : Result ScanTask)
    : Result FilterAndProjectScanTask :=
  match r with
  | Ok task => Ok (FilterAndProjectScanTask_new task partition)
  | Err s => Err s
  end.

(** What one element of the fragment sequence contributes to the flattened
    sequence. *)
Definition contribution (options : ScanOptions) (context : ScanContext)
    (f : Result Fragment) : list (Result FilterAndProjectScanTask) :=
  match f with
  | Err s => [Err s]
  | Ok fragment =>
      match Scan fragment options context with
      | Err s => [Err s]
      | Ok tasks => map (wrap_result (partition_expression fragment)) tasks
      end
  end.

Definition scanned (f : Result Fragment) : list Fragment :=
  match f with
  | Ok fragment => [fragment]
  | Err _ => []
  end.

(** The states the flattened iterator of [GetScanTaskIterator] goes through:
    the fragment being unfolded, if any, as its partition and the raw tasks
    still to wrap, and the fragments still to scan. *)
Definition flatten_state (options : ScanOptions) (context : ScanContext)
    (child : option (ExpressionPtr * ScanTaskIterator)) (frs : FragmentIterator)
    : FlattenIterator WrappedIterator (MapIterator fn_closure FragmentIterator) :=
  mkFlattenIterator
    (option_map (fun c => mkMapIterator (mkwrap_scan_task_fn (fst c)) (snd c)) child)
    (mkMapIterator (mkfn_closure options context) frs).

(** What the fragment being unfolded still contributes. *)
Definition pending (child : option (ExpressionPtr * ScanTaskIterator))
    : list (Result FilterAndProjectScanTask) :=
  match child with
  | Some (partition, tasks) => map (wrap_result partition) tasks
  | None => []
  end.

(** A bound on the calls inside one pull from such a state. *)
Definition flatten_depth (child : option (ExpressionPtr * ScanTaskIterator))
    (frs : FragmentIterator) : nat :=
  match child with Some _ => 1 | None => 0 end + 2 * List.length frs + 1.

(** The decorated tasks of a fragment whose scan yields [tasks]. *)
Definition decorate (fragment : Fragment) (tasks : list ScanTask)
    : list FilterAndProjectScanTask :=
  map (fun task => FilterAndProjectScanTask_new task (partition_expression fragment)) tasks.

(** A fragment whose scan yields the given tasks. *)
Definition fragment_of (partition : ExpressionPtr) (tasks : list ScanTask) : Fragment :=
  {| partition_expression := partition;
     Scan := fun _ _ => Ok (map Ok tasks) |}.

Definition failing_fragment (partition : ExpressionPtr) (s : Status) : Fragment :=
  {| partition_expression := partition;
     Scan := fun _ _ => Err s |}.

End Expected.

(** ** Sample data *)

Module Sample.
Import Model.

#[local] Existing Instance Model.collaborators.
#[local] Open Scope string_scope.
#[local] Open Scope Z_scope.

Definition west : Expr := equal "region" (Str "west").

(** Two raw batches with a column [x] and no column [region]. *)
Definition batch1 : Batch :=
  {| columns := [("x", [Int 1; Int 2; Int 1])]; num_rows := 3 |}.
Definition batch2 : Batch :=
  {| columns := [("x", [Int 2; Int 1])]; num_rows := 2 |}.


Definition x_is_1 : Expr := equal "x" (Int 1).

Definition sample_projector : Projector :=
  {| to_schema := ["x"; "region"]; defaults := []; scratch := 0 |}.

Definition sample_options : ScanOptions :=
  {| filter := and_ x_is_1 west; evaluator := tt; projector := sample_projector |}.

Definition sample_context : ScanContext := {| pool := tt |}.

Definition raw_task (batches : list (Result Batch)) : ScanTask :=
  {| options := sample_options; context := sample_context;
     ScanTask_Execute := Ok batches |}.

Definition t1 : ScanTask := raw_task [Ok batch1].
Definition t2 : ScanTask := raw_task [Ok batch2].
Definition t3 : ScanTask := raw_task [Ok batch1; Ok batch2].
Definition t4 : ScanTask := raw_task [].
Definition t5 : ScanTask := raw_task [Ok batch2; Ok batch1].

Definition east : Expr := equal "region" (Str "east").

(** Fragments [F1] and [F2] with 2 and 3 raw tasks. *)
Definition F1 : Fragment := fragment_of (Some west) [t1; t2].
Definition F2 : Fragment := fragment_of (Some east) [t3; t4; t5].

Definition io_error : Status := mkStatus IOError "cannot open fragment".

Definition F_bad : Fragment := failing_fragment (Some west) io_error.

Definition decorated_west : FilterAndProjectScanTask :=
  FilterAndProjectScanTask_new t3 (Some west).

Definition decorated_unpartitioned : FilterAndProjectScanTask :=
  FilterAndProjectScanTask_new t3 None.

Definition world_of (t : FilterAndProjectScanTask) : World :=
  {| this := t; calls := [] |}.

(** A filter stage for [x = 1] and a projection stage through [&projector_]. *)
Definition filter_stage (raw : RecordBatchIterator)
    : MapIterator FilterRecordBatch_fn RecordBatchIterator :=
  @FilterRecordBatch Model.collaborators RecordBatchIterator raw tt x_is_1 tt.

Definition project_stage (raw : RecordBatchIterator)
    : MapIterator ProjectRecordBatch_fn RecordBatchIterator :=
  @ProjectRecordBatch Model.collaborators RecordBatchIterator raw AddrOf_projector_ tt.

(** A wrapped task that fails to start. *)
Definition t_fail : ScanTask :=
  {| options := sample_options; context := sample_context;
     ScanTask_Execute := Err io_error |}.

Definition decorated_fail : FilterAndProjectScanTask :=
  FilterAndProjectScanTask_new t_fail (Some west).

(** A wrapped task whose raw sequence has a failed pull after a batch. *)
Definition t_err : ScanTask := raw_task [Ok batch1; Err io_error].

Definition decorated_err : FilterAndProjectScanTask :=
  FilterAndProjectScanTask_new t_err (Some west).

(** A fragment with no task, and one whose task sequence has a failed pull
    between two tasks. *)
Definition F_empty : Fragment := fragment_of (Some west) [].

Definition F_mixed : Fragment :=
  {| partition_expression := Some east;
     Scan := fun _ _ => Ok [Ok t1; Err io_error; Ok t2] |}.

Definition pull_error : Status := mkStatus IOError "cannot list fragment".

End Sample.

(** Sample data over collaborators whose [SetDefaultValuesFromKeys] fails: it
    applies the first binding and then reports a type error. *)
Module SampleStrict.
Import Model.

#[local] Open Scope string_scope.
#[local] Open Scope Z_scope.

Definition type_error : Status := mkStatus TypeError "cannot cast partition value".

Definition strict : Collaborators :=
  {| Expression := Expr;
     RecordBatch := Batch;
     Datum := list bool;
     RecordBatchProjector := Projector;
     ExpressionEvaluator := unit;
     MemoryPool := unit;
     Assume := assume;
     Evaluate := fun _ e b _ => evaluate e b;
     Filter := fun _ selection b => filter_batch selection b;
     Project := project;
     SetDefaultValuesFromKeys :=
       fun e p =>
         match keys e with
         | [] => (Ok tt, p)
         | kv :: _ => (Err type_error, set_default kv p)
         end |}.

#[local] Existing Instance strict.

Definition strict_options : @ScanOptions strict :=
  {| filter := Sample.x_is_1; evaluator := tt; projector := Sample.sample_projector |}.

Definition strict_task : @ScanTask strict :=
  {| options := strict_options; context := {| pool := tt |};
     ScanTask_Execute := Ok [Ok Sample.batch1] |}.

Definition strict_world : @World strict :=
  {| this := FilterAndProjectScanTask_new strict_task (Some Sample.west); calls := [] |}.

End SampleStrict.

(** * Properties *)

(** ** The iterator combinators *)

Section IteratorFacts.
Context {W : Type}.

Lemma VectorIterator_Next_nil (T : Type) (w : W) :
  Next (@nil (Result T)) w = (Ok None, [], w).
Proof. reflexivity. Qed.

Lemma VectorIterator_Next_ok (T : Type) (x : T) (rest : VectorIterator T) (w : W) :
  Next (Ok x :: rest) w = (Ok (Some x), rest, w).
Proof. reflexivity. Qed.

Lemma VectorIterator_Next_err (T : Type) (s : Status) (rest : VectorIterator T) (w : W) :
  Next (Err s :: rest) w = (Err s, rest, w).
Proof. reflexivity. Qed.

(** A pull of a [MapIterator] whose input yields an element. *)
Lemma MapIterator_Next_element (Fn It I O : Type)
    (HI : Iterator W It I) (HF : Callable W Fn I O)
    (fn : Fn) (it it' : It) (i : I) (w w' : W) :
  Next it w = (Ok (Some i), it', w') ->
  Next (mkMapIterator fn it) w =
    match call fn i w' with
    | (Ok o, fn', w'') => (Ok (Some o), mkMapIterator fn' it', w'')
    | (Err s, fn', w'') => (Err s, mkMapIterator fn' it', w'')
    end.
Proof.
  intros Hnext. unfold Next at 1, MapIterator_Next. cbn [it_ map_].
  rewrite Hnext. reflexivity.
Qed.

Lemma MapIterator_Next_end (Fn It I O : Type)
    (HI : Iterator W It I) (HF : Callable W Fn I O)
    (fn : Fn) (it it' : It) (w w' : W) :
  Next it w = (Ok None, it', w') ->
  Next (mkMapIterator fn it) w = (@Ok (option O) None, mkMapIterator fn it', w').
Proof.
  intros Hnext. unfold Next at 1, MapIterator_Next. cbn [it_ map_].
  rewrite Hnext. reflexivity.
Qed.

Lemma MapIterator_Next_failed_pull (Fn It I O : Type)
    (HI : Iterator W It I) (HF : Callable W Fn I O)
    (fn : Fn) (it it' : It) (s : Status) (w w' : W) :
  Next it w = (Err s, it', w') ->
  Next (mkMapIterator fn it) w = (@Err (option O) s, mkMapIterator fn it', w').
Proof.
  intros Hnext. unfold Next at 1, MapIterator_Next. cbn [it_ map_].
  rewrite Hnext. reflexivity.
Qed.

Lemma pull_succ (It T : Type) (HI : Iterator W It T) (n : nat) (it : It) (w : W) :
  pull (S n) it w =
    match Next it w with
    | (r, it', w') =>
        match pull n it' w' with
        | (rs, it'', w'') => (r :: rs, it'', w'')
        end
    end.
Proof. reflexivity. Qed.

End IteratorFacts.

(** ** The batch pipeline *)

Section BatchFacts.
Context {C : Collaborators}.

Lemma deref_tick (p : ProjectorPtr) (e : Event) (w : World) :
  deref p (tick e w) = deref p w.
Proof. destruct p; reflexivity. Qed.

Lemma world_eta (w : World) : {| this := this w; calls := calls w |} = w.
Proof. destruct w; reflexivity. Qed.

(** One call of the filter closure. *)
Lemma FilterRecordBatch_call_eq (fn : FilterRecordBatch_fn) (in_ : RecordBatch) (w : World) :
  call fn in_ w =
    match Evaluate (cap_evaluator fn) (cap_filter fn) in_ (cap_pool fn) with
    | Err s => (Err s, fn, tick (CallEvaluate (cap_filter fn) in_) w)
    | Ok selection =>
        (Filter (cap_evaluator fn) selection in_, fn,
         tick (CallFilter selection in_) (tick (CallEvaluate (cap_filter fn) in_) w))
    end.
Proof.
  unfold call, FilterRecordBatch_call, Result_Map.
  destruct (Evaluate (cap_evaluator fn) (cap_filter fn) in_ (cap_pool fn)); reflexivity.
Qed.

(** One call of the projection closure: a copy is made, [Project] runs on the
    copy, the closure and the task are as before. *)
Lemma ProjectRecordBatch_call_eq (fn : ProjectRecordBatch_fn) (in_ : RecordBatch) (w : World) :
  call fn in_ w =
    (fst (Project (deref (cap_projector fn) w) in_ (cap_pool' fn)), fn,
     tick (CallProject (deref (cap_projector fn) w) in_)
       (tick (CopyProjector (deref (cap_projector fn) w)) w)).
Proof.
  unfold call, ProjectRecordBatch_call.
  destruct (Project (deref (cap_projector fn) w) in_ (cap_pool' fn)); reflexivity.
Qed.

(** A pull of the filter stage over any input iterator that yields a batch. *)
Lemma FilterRecordBatch_Next_element (It : Type) (HI : Iterator World It RecordBatch)
    (it it' : It) (in_ : RecordBatch) (w w' : World)
    (ev : ExpressionEvaluator) (predicate : Expression) (pool : MemoryPool) :
  Next it w = (Ok (Some in_), it', w') ->
  Next (FilterRecordBatch it ev predicate pool) w =
    match Evaluate ev predicate in_ pool with
    | Err s => (Err s, FilterRecordBatch it' ev predicate pool,
                tick (CallEvaluate predicate in_) w')
    | Ok selection =>
        (match Filter ev selection in_ with
         | Ok out => Ok (Some out)
         | Err s => Err s
         end,
         FilterRecordBatch it' ev predicate pool,
         tick (CallFilter selection in_) (tick (CallEvaluate predicate in_) w'))
    end.
Proof.
  intros Hnext. unfold FilterRecordBatch, MakeMaybeMapIterator.
  erewrite MapIterator_Next_element by exact Hnext.
  rewrite FilterRecordBatch_call_eq.
  cbn [cap_evaluator cap_filter cap_pool].
  destruct (Evaluate ev predicate in_ pool) as [selection|s]; [|reflexivity].
  destruct (Filter ev selection in_); reflexivity.
Qed.

(** A pull of the projection stage over any input iterator that yields a
    batch. *)
Lemma ProjectRecordBatch_Next_element (It : Type) (HI : Iterator World It RecordBatch)
    (it it' : It) (in_ : RecordBatch) (w w' : World)
    (ptr : ProjectorPtr) (pool : MemoryPool) :
  Next it w = (Ok (Some in_), it', w') ->
  Next (ProjectRecordBatch it ptr pool) w =
    (project_result pool (deref ptr w') (Ok in_),
     ProjectRecordBatch it' ptr pool,
     tick (CallProject (deref ptr w') in_) (tick (CopyProjector (deref ptr w')) w')).
Proof.
  intros Hnext. unfold ProjectRecordBatch, MakeMaybeMapIterator.
  erewrite MapIterator_Next_element by exact Hnext.
  rewrite ProjectRecordBatch_call_eq.
  cbn [cap_projector cap_pool' project_result].
  destruct (fst (Project (deref ptr w') in_ pool)); reflexivity.
Qed.

Lemma add_calls_nil (w : World) : add_calls [] w = w.
Proof. unfold add_calls. rewrite app_nil_r. apply world_eta. Qed.

Lemma add_calls_app (es es' : list Event) (w : World) :
  add_calls es' (add_calls es w) = add_calls (es ++ es') w.
Proof. unfold add_calls; cbn. now rewrite app_assoc. Qed.

Lemma tick_add_calls (e : Event) (w : World) : tick e w = add_calls [e] w.
Proof. reflexivity. Qed.

Lemma deref_add_calls (p : ProjectorPtr) (es : list Event) (w : World) :
  deref p (add_calls es w) = deref p w.
Proof. destruct p; reflexivity. Qed.

End BatchFacts.

Section PipelineFacts.
Context {C : Collaborators}.

Lemma ProjectRecordBatch_Next_end (It : Type) (HI : Iterator World It RecordBatch)
    (it it' : It) (w w' : World) (ptr : ProjectorPtr) (pool : MemoryPool) :
  Next it w = (Ok None, it', w') ->
  Next (ProjectRecordBatch it ptr pool) w = (Ok None, ProjectRecordBatch it' ptr pool, w').
Proof. intros Hnext. apply MapIterator_Next_end. exact Hnext. Qed.

Lemma ProjectRecordBatch_Next_failed_pull (It : Type) (HI : Iterator World It RecordBatch)
    (it it' : It) (s : Status) (w w' : World) (ptr : ProjectorPtr) (pool : MemoryPool) :
  Next it w = (Err s, it', w') ->
  Next (ProjectRecordBatch it ptr pool) w = (Err s, ProjectRecordBatch it' ptr pool, w').
Proof. intros Hnext. apply MapIterator_Next_failed_pull. exact Hnext. Qed.

(** One pull of the projection stage over a vector. *)
Lemma ProjectRecordBatch_Next_cons (item : Result RecordBatch) (raw : RecordBatchIterator)
    (ptr : ProjectorPtr) (pool : MemoryPool) (w : World) :
  Next (ProjectRecordBatch (item :: raw) ptr pool) w =
    (project_result pool (deref ptr w) item,
     ProjectRecordBatch raw ptr pool,
     add_calls (project_events (deref ptr w) item) w).
Proof.
  destruct item as [b|s].
  - erewrite ProjectRecordBatch_Next_element by apply VectorIterator_Next_ok.
    rewrite !tick_add_calls, add_calls_app. reflexivity.
  - erewrite ProjectRecordBatch_Next_failed_pull by apply VectorIterator_Next_err.
    cbn [project_events project_result]. now rewrite add_calls_nil.
Qed.

(** One pull of projection over filtering over a vector. *)
Lemma pipeline_Next_cons (item : Result RecordBatch) (raw : RecordBatchIterator)
    (ev : ExpressionEvaluator) (predicate : Expression) (pool : MemoryPool)
    (ptr : ProjectorPtr) (w : World) :
  Next (ProjectRecordBatch (FilterRecordBatch (item :: raw) ev predicate pool) ptr pool) w =
    (item_result ev predicate pool (deref ptr w) item,
     ProjectRecordBatch (FilterRecordBatch raw ev predicate pool) ptr pool,
     add_calls (item_events ev predicate pool (deref ptr w) item) w).
Proof.
  destruct item as [b|s]; cbn [item_result item_events].
  - pose proof (FilterRecordBatch_Next_element _ (Ok b :: raw : RecordBatchIterator) w
                  ev predicate pool (VectorIterator_Next_ok b raw w)) as Hf.
    destruct (Evaluate ev predicate b pool) as [selection|s].
    + destruct (Filter ev selection b) as [filtered|s].
      * erewrite ProjectRecordBatch_Next_element by exact Hf.
        rewrite !tick_add_calls, !add_calls_app, !deref_add_calls. cbn [project_result app].
        reflexivity.
      * erewrite ProjectRecordBatch_Next_failed_pull by exact Hf.
        rewrite !tick_add_calls, !add_calls_app. reflexivity.
    + erewrite ProjectRecordBatch_Next_failed_pull by exact Hf.
      rewrite !tick_add_calls. reflexivity.
  - erewrite ProjectRecordBatch_Next_failed_pull.
    2:{ apply MapIterator_Next_failed_pull. apply VectorIterator_Next_err. }
    now rewrite add_calls_nil.
Qed.

Lemma pipeline_Next_nil (ev : ExpressionEvaluator) (predicate : Expression)
    (pool : MemoryPool) (ptr : ProjectorPtr) (w : World) :
  Next (ProjectRecordBatch (FilterRecordBatch (@nil (Result RecordBatch)) ev predicate pool)
          ptr pool) w =
    (Ok None, ProjectRecordBatch (FilterRecordBatch [] ev predicate pool) ptr pool, w).
Proof.
  erewrite ProjectRecordBatch_Next_end; [reflexivity|].
  apply MapIterator_Next_end. apply VectorIterator_Next_nil.
Qed.

(** [n] pulls of projection over filtering over a vector: the results are
    those of the raw elements one by one, then end markers; the task object is
    untouched. *)
Lemma pull_pipeline (n : nat) : forall (raw : RecordBatchIterator)
    (ev : ExpressionEvaluator) (predicate : Expression) (pool : MemoryPool)
    (ptr : ProjectorPtr) (w : World),
  pull n (ProjectRecordBatch (FilterRecordBatch raw ev predicate pool) ptr pool) w =
    (map (item_result ev predicate pool (deref ptr w)) (firstn n raw)
       ++ repeat (Ok None) (n - List.length raw),
     ProjectRecordBatch (FilterRecordBatch (skipn n raw) ev predicate pool) ptr pool,
     add_calls (flat_map (item_events ev predicate pool (deref ptr w)) (firstn n raw)) w).
Proof.
  induction n as [|n IH]; intros raw ev predicate pool ptr w.
  - cbn. now rewrite add_calls_nil.
  - rewrite pull_succ. destruct raw as [|item raw].
    + rewrite pipeline_Next_nil, IH.
      rewrite firstn_nil, skipn_nil, Nat.sub_0_r. reflexivity.
    + rewrite pipeline_Next_cons, IH.
      rewrite add_calls_app, deref_add_calls. reflexivity.
Qed.

(** [n] pulls of a projection stage over a vector. *)
Lemma pull_ProjectRecordBatch (n : nat) : forall (raw : RecordBatchIterator)
    (ptr : ProjectorPtr) (pool : MemoryPool) (w : World),
  pull n (ProjectRecordBatch raw ptr pool) w =
    (map (project_result pool (deref ptr w)) (firstn n raw)
       ++ repeat (Ok None) (n - List.length raw),
     ProjectRecordBatch (skipn n raw) ptr pool,
     add_calls (flat_map (project_events (deref ptr w)) (firstn n raw)) w).
Proof.
  induction n as [|n IH]; intros raw ptr pool w.
  - cbn. now rewrite add_calls_nil.
  - rewrite pull_succ. destruct raw as [|item raw].
    + erewrite ProjectRecordBatch_Next_end by apply VectorIterator_Next_nil.
      rewrite IH, firstn_nil, skipn_nil, Nat.sub_0_r. reflexivity.
    + rewrite ProjectRecordBatch_Next_cons, IH.
      rewrite add_calls_app, deref_add_calls. reflexivity.
Qed.

Lemma visit_succ (It T : Type) (HI : Iterator World It T) (n : nat) (it : It) (w : World) :
  visit (S n) it w =
    match Next it w with
    | (Ok None, it', w') => ([], Exhausted, it', w')
    | (Err s, it', w') => ([], Failed s, it', w')
    | (Ok (Some x), it', w') =>
        match visit n it' w' with
        | (xs, outcome, it'', w'') => (x :: xs, outcome, it'', w'')
        end
    end.
Proof. reflexivity. Qed.

(** Visiting projection over filtering over a vector whose first batches
    all come through: the consumer has their results, and goes on with the
    rest. *)
Lemma visit_pipeline_prefix (ev : ExpressionEvaluator) (predicate : Expression)
    (pool : MemoryPool) (ptr : ProjectorPtr) (local_projector : RecordBatchProjector)
    (before outs : list RecordBatch) :
  Forall2 (fun b out =>
             item_result ev predicate pool local_projector (Ok b) = Ok (Some out))
    before outs ->
  forall (rest : RecordBatchIterator) (n : nat) (w : World),
    deref ptr w = local_projector ->
    visit (List.length before + n)
      (ProjectRecordBatch (FilterRecordBatch (map Ok before ++ rest) ev predicate pool)
         ptr pool) w =
      match visit n (ProjectRecordBatch (FilterRecordBatch rest ev predicate pool) ptr pool)
              (add_calls (flat_map (item_events ev predicate pool local_projector)
                            (map Ok before)) w) with
      | (xs, outcome, it', w') => (outs ++ xs, outcome, it', w')
      end.
Proof.
  unfold RecordBatchIterator, VectorIterator.
  induction 1 as [|b out before outs Hb _ IH]; intros rest n w Hptr.
  - cbn [List.length Nat.add map app flat_map]. rewrite add_calls_nil.
    destruct (visit n (ProjectRecordBatch (FilterRecordBatch rest ev predicate pool)
                         ptr pool) w) as [[[xs o] it'] w'].
    reflexivity.
  - cbn [List.length Nat.add map app flat_map].
    rewrite visit_succ.
    pose proof (pipeline_Next_cons (Ok b) (map Ok before ++ rest)
                  ev predicate pool ptr w) as Hnext.
    rewrite Hptr, Hb in Hnext. unfold RecordBatchIterator, VectorIterator in Hnext.
    rewrite Hnext, IH, add_calls_app by (rewrite deref_add_calls; exact Hptr).
    destruct (visit n (ProjectRecordBatch (FilterRecordBatch rest ev predicate pool)
                         ptr pool)
                (add_calls (item_events ev predicate pool local_projector (Ok b)
                              ++ flat_map (item_events ev predicate pool local_projector)
                                   (map Ok before)) w))
      as [[[xs o] it'] w'].
    reflexivity.
Qed.

(** When every batch of the vector comes through, the consumer has one
    result per batch and then the end. *)
Lemma visit_pipeline_all (ev : ExpressionEvaluator) (predicate : Expression)
    (pool : MemoryPool) (ptr : ProjectorPtr) (batches outs : list RecordBatch) (w : World) :
  Forall2 (fun b out =>
             item_result ev predicate pool (deref ptr w) (Ok b) = Ok (Some out))
    batches outs ->
  fst (fst (visit (S (List.length batches))
              (ProjectRecordBatch (FilterRecordBatch (map Ok batches) ev predicate pool)
                 ptr pool) w)) = (outs, Exhausted).
Proof.
  intros Hall.
  pose proof (@visit_pipeline_prefix ev predicate pool ptr (deref ptr w) batches outs
                Hall [] 1 w eq_refl) as Hvisit.
  rewrite app_nil_r, Nat.add_1_r in Hvisit. rewrite Hvisit.
  rewrite visit_succ, pipeline_Next_nil. cbn [fst]. now rewrite app_nil_r.
Qed.

End PipelineFacts.

(** ** FilterAndProjectScanTask::Execute *)

Section ExecuteFacts.
Context {C : Collaborators}.

Lemma count_events_app (p : Event -> bool) (l r : list Event) :
  count_events p (l ++ r) = count_events p l + count_events p r.
Proof. unfold count_events. now rewrite filter_app, length_app. Qed.

Lemma count_events_flat_map_zero (A : Type) (p : Event -> bool) (f : A -> list Event)
    (l : list A) :
  (forall a, count_events p (f a) = 0) ->
  count_events p (flat_map f l) = 0.
Proof.
  intros Hf. induction l as [|a l IH]; [reflexivity|].
  cbn [flat_map]. now rewrite count_events_app, Hf, IH.
Qed.

Lemma item_events_no_Assume (ev : ExpressionEvaluator) (predicate : Expression)
    (pool : MemoryPool) (proj : RecordBatchProjector) (item : Result RecordBatch) :
  count_events is_CallAssume (item_events ev predicate pool proj item) = 0.
Proof.
  destruct item as [b|s]; [|reflexivity]. cbn [item_events].
  destruct (Evaluate ev predicate b pool) as [sel|s]; [|reflexivity].
  destruct (Filter ev sel b); reflexivity.
Qed.

Lemma item_events_copy_per_project (ev : ExpressionEvaluator) (predicate : Expression)
    (pool : MemoryPool) (proj : RecordBatchProjector) (item : Result RecordBatch) :
  count_events is_CopyProjector (item_events ev predicate pool proj item) =
  count_events is_CallProject (item_events ev predicate pool proj item).
Proof.
  destruct item as [b|s]; [|reflexivity]. cbn [item_events].
  destruct (Evaluate ev predicate b pool) as [sel|s]; [|reflexivity].
  destruct (Filter ev sel b); reflexivity.
Qed.

(** [Execute] in one piece: what it returns and the world it leaves. *)
Lemma Execute_eq (w : World) :
  Execute w =
    let t := this w in
    match ScanTask_Execute (task_ t) with
    | Err s => (Err s, add_calls [CallExecute (task_ t)] w)
    | Ok raw =>
        let specialized := Assume_ptr (filter (options_ t)) (partition_ t) in
        let started := [CallExecute (task_ t);
                        CallAssume (filter (options_ t)) (partition_ t)] in
        match partition_ t with
        | None =>
            (Ok (stages_of t raw),
             {| this := with_filter_ (Some specialized) t;
                calls := calls w ++ started |})
        | Some partition =>
            (match fst (SetDefaultValuesFromKeys partition (projector_ t)) with
             | Ok _ => Ok (stages_of t raw)
             | Err s => Err s
             end,
             {| this := with_projector_
                          (snd (SetDefaultValuesFromKeys partition (projector_ t)))
                          (with_filter_ (Some specialized) t);
                calls := calls w ++ started ++ [CallSetDefaultValuesFromKeys partition] |})
        end
    end.
Proof.
  unfold Execute, stages_of, with_projector_, with_filter_, set_projector_,
    set_filter_, tick, add_calls.
  cbn [this calls options_ context_ task_ partition_ filter_ projector_].
  destruct (ScanTask_Execute (task_ (this w))) as [raw|s]; [|reflexivity].
  destruct (partition_ (this w)) as [partition|].
  - destruct (SetDefaultValuesFromKeys partition (projector_ (this w))) as [[u|s] p'];
      cbn [fst snd]; rewrite <- !app_assoc; reflexivity.
  - rewrite <- !app_assoc. reflexivity.
Qed.

End ExecuteFacts.

Section ExecuteClaims.
Context {C : Collaborators}.

(** C1.  When the wrapped task starts, [Execute()] first calls the wrapped
    task's [Execute], then computes the specialized predicate once, as the
    options' filter with the task's partition predicate assumed, and stores
    it in [filter_].  It returns a sequence unless setting the defaults from
    a present partition predicate fails, and the sequence it returns is the
    projection stage built over the filter stage built over the raw sequence
    with that predicate.  Every batch pulled through that sequence is
    evaluated and filtered before the projector is copied and the filtered
    batch projected, with no further specialization during the pulls. *)
Theorem Execute_filters_before_projecting (w : World) (raw : RecordBatchIterator) :
  ScanTask_Execute (task_ (this w)) = Ok raw ->
  let t := this w in
  let specialized := Assume_ptr (filter (options_ t)) (partition_ t) in
  let ev := evaluator (options_ t) in
  let mem := pool (context_ t) in
  let w' := snd (Execute w) in
  let stages :=
    ProjectRecordBatch (FilterRecordBatch raw ev specialized mem) AddrOf_projector_ mem in
  (exists later,
      calls w' = calls w ++ CallExecute (task_ t)
                   :: CallAssume (filter (options_ t)) (partition_ t) :: later
      /\ count_events is_CallAssume later = 0)
  /\ filter_ (this w') = Some specialized
  /\ fst (Execute w) =
       match partition_ t with
       | None => Ok stages
       | Some p =>
           match fst (SetDefaultValuesFromKeys p (projector_ t)) with
           | Ok _ => Ok stages
           | Err s => Err s
           end
       end
  /\ (forall n,
        fst (fst (pull n stages w')) =
          map (item_result ev specialized mem (projector_ (this w'))) (firstn n raw)
            ++ repeat (Ok None) (n - List.length raw)
        /\ calls (snd (pull n stages w')) =
             calls w' ++ flat_map (item_events ev specialized mem (projector_ (this w')))
                           (firstn n raw)
        /\ count_events is_CallAssume (calls (snd (pull n stages w'))) =
             count_events is_CallAssume (calls w) + 1).
Proof.
  intros Hraw t specialized ev mem w' stages.
  assert (Hexec : Execute w =
            match partition_ t with
            | None =>
                (Ok (stages_of t raw),
                 {| this := with_filter_ (Some specialized) t;
                    calls := calls w ++ [CallExecute (task_ t);
                                         CallAssume (filter (options_ t)) (partition_ t)] |})
            | Some p =>
                (match fst (SetDefaultValuesFromKeys p (projector_ t)) with
                 | Ok _ => Ok (stages_of t raw)
                 | Err s => Err s
                 end,
                 {| this := with_projector_
                              (snd (SetDefaultValuesFromKeys p (projector_ t)))
                              (with_filter_ (Some specialized) t);
                    calls := calls w ++ [CallExecute (task_ t);
                                         CallAssume (filter (options_ t)) (partition_ t)]
                               ++ [CallSetDefaultValuesFromKeys p] |})
            end).
  { rewrite Execute_eq. cbv zeta. rewrite Hraw. reflexivity. }
  assert (Hcalls : exists later,
             calls w' = calls w ++ CallExecute (task_ t)
                          :: CallAssume (filter (options_ t)) (partition_ t) :: later
             /\ count_events is_CallAssume later = 0).
  { subst w'. rewrite Hexec.
    destruct (partition_ t) as [p|]; cbn [snd calls].
    - exists [CallSetDefaultValuesFromKeys p]. split; reflexivity.
    - exists []. split; reflexivity. }
  split; [exact Hcalls|]. split.
  - subst w'. rewrite Hexec.
    destruct (partition_ t) as [p|]; reflexivity.
  - split.
    + rewrite Hexec. unfold stages_of. subst stages specialized ev mem.
      destruct (partition_ t) as [p|]; reflexivity.
    + intros n. subst stages. unfold ProjectedIterator, FilteredIterator.
      rewrite pull_pipeline. cbn [fst snd deref add_calls calls].
      split; [reflexivity|]. split; [reflexivity|].
      destruct Hcalls as (later & -> & Hlater).
      change (calls w ++ CallExecute (task_ t)
                :: CallAssume (filter (options_ t)) (partition_ t) :: later)
        with (calls w ++ [CallExecute (task_ t)]
                ++ [CallAssume (filter (options_ t)) (partition_ t)] ++ later).
      rewrite !count_events_app, Hlater.
      rewrite count_events_flat_map_zero by (intros a; apply item_events_no_Assume).
      cbn. lia.
Qed.

(** C7.  With a null partition predicate, and the wrapped task started,
    [Execute()] filters with the options' filter itself: that is the
    predicate stored in [filter_] and held by the filter stage; no
    default values are set, and [projector_] is as it was. *)
Theorem Execute_without_partition (w : World) (raw : RecordBatchIterator) :
  partition_ (this w) = None ->
  ScanTask_Execute (task_ (this w)) = Ok raw ->
  let t := this w in
  Execute w =
    (Ok (ProjectRecordBatch
           (FilterRecordBatch raw (evaluator (options_ t)) (filter (options_ t))
              (pool (context_ t)))
           AddrOf_projector_ (pool (context_ t))),
     {| this := with_filter_ (Some (filter (options_ t))) t;
        calls := calls w ++ [CallExecute (task_ t);
                             CallAssume (filter (options_ t)) None] |})
  /\ filter_ (this (snd (Execute w))) = Some (filter (options_ t))
  /\ projector_ (this (snd (Execute w))) = projector_ t
  /\ count_events is_CallSetDefaultValuesFromKeys (calls (snd (Execute w))) =
       count_events is_CallSetDefaultValuesFromKeys (calls w).
Proof.
  intros Hnone Hraw t. rewrite Execute_eq. cbv zeta.
  rewrite Hraw, Hnone. unfold stages_of. subst t. rewrite Hnone.
  cbn [Assume_ptr snd this calls with_filter_ filter_ projector_].
  repeat split. rewrite count_events_app. cbn. lia.
Qed.

(** C9.  [Execute()] leaves the options, and so the projector template in
    them, as they were; and however many batches are pulled through the
    sequence it returns, the task object, with its [projector_] member and
    its options, is as [Execute()] left it: every [Project] call of these
    pulls was made on a copy made for it. *)
Theorem projection_writes_only_copies (w : World) (n : nat) :
  let w1 := snd (Execute w) in
  options_ (this w1) = options_ (this w)
  /\ forall it, fst (Execute w) = Ok it ->
       let w2 := snd (pull n it w1) in
       this w2 = this w1
       /\ projector (options_ (this w2)) = projector (options_ (this w))
       /\ projector_ (this w2) = projector_ (this w1)
       /\ exists made,
            calls w2 = calls w1 ++ made
            /\ count_events is_CopyProjector made = count_events is_CallProject made.
Proof.
  intros w1.
  assert (Hopt : options_ (this w1) = options_ (this w)).
  { subst w1. rewrite Execute_eq. cbv zeta.
    destruct (ScanTask_Execute (task_ (this w))); [|reflexivity].
    destruct (partition_ (this w)); reflexivity. }
  split; [exact Hopt|]. intros it Hit w2.
  assert (Hst : exists raw predicate,
             it = ProjectRecordBatch
                    (FilterRecordBatch raw (evaluator (options_ (this w))) predicate
                       (pool (context_ (this w))))
                    AddrOf_projector_ (pool (context_ (this w)))).
  { revert Hit. rewrite Execute_eq. cbv zeta.
    destruct (ScanTask_Execute (task_ (this w))) as [raw|s]; [|discriminate].
    destruct (partition_ (this w)) as [p|] eqn:Hp; cbn [fst].
    - destruct (fst (SetDefaultValuesFromKeys p (projector_ (this w)))); [|discriminate].
      intros [= <-]. unfold stages_of. eauto.
    - intros [= <-]. unfold stages_of. eauto. }
  destruct Hst as (raw & predicate & ->). subst w2.
  unfold ProjectedIterator, FilteredIterator. rewrite pull_pipeline. cbn [snd add_calls this calls].
  split; [reflexivity|]. split; [now rewrite Hopt|]. split; [reflexivity|].
  eexists. split; [reflexivity|].
  induction (firstn n raw) as [|item l IH]; [reflexivity|].
  cbn [flat_map]. rewrite !count_events_app, IH.
  now rewrite item_events_copy_per_project.
Qed.

End ExecuteClaims.

(** ** The filter and projection stages *)

Section StageClaims.
Context {C : Collaborators}.

(** C2.  When the input yields a batch and the predicate evaluates on it to
    a selection, the filter stage yields what applying that selection to that
    same batch gives; under the evaluator's contract a yielded batch has
    exactly the rows of the input batch that the selection marks. *)
Theorem FilterRecordBatch_keeps_selected_rows {EC : EvaluatorContract C}
    (It : Type) (HI : Iterator World It RecordBatch)
    (it it' : It) (in_ : RecordBatch) (w w' : World)
    (ev : ExpressionEvaluator) (predicate : Expression) (mem : MemoryPool)
    (selection : Datum) :
  Next it w = (Ok (Some in_), it', w') ->
  Evaluate ev predicate in_ mem = Ok selection ->
  let yielded := fst (fst (Next (FilterRecordBatch it ev predicate mem) w)) in
  yielded = lift_result (Filter ev selection in_)
  /\ forall out, yielded = Ok (Some out) ->
       rows out = take_mask (selection_mask selection) (rows in_).
Proof.
  intros Hnext Heval yielded. subst yielded.
  rewrite (FilterRecordBatch_Next_element _ it w ev predicate mem Hnext), Heval.
  cbn [fst]. split.
  - destruct (Filter ev selection in_); reflexivity.
  - intros out Hout. apply (Filter_rows ev).
    destruct (Filter ev selection in_); congruence.
Qed.

Lemma project_events_copies (proj : RecordBatchProjector) (l : list (Result RecordBatch)) :
  count_events is_CopyProjector (flat_map (project_events proj) l) =
  List.length (List.filter is_ok l).
Proof.
  induction l as [|[b|s] l IH]; [reflexivity| |exact IH].
  cbn [flat_map List.filter is_ok project_events List.length].
  rewrite count_events_app, IH. reflexivity.
Qed.

(** C3, as the code has it.  Pulling [n] times through a projection stage
    over a sequence copies the projector once for every batch the input
    yields in these pulls, and not before: each batch is projected by a copy
    made for it from the projector the stage points to, and the task object
    is left as it was. *)
Theorem ProjectRecordBatch_copies_per_batch (n : nat) (raw : RecordBatchIterator)
    (ptr : ProjectorPtr) (mem : MemoryPool) (w : World) :
  let after := pull n (ProjectRecordBatch raw ptr mem) w in
  fst (fst after) =
    map (project_result mem (deref ptr w)) (firstn n raw)
      ++ repeat (Ok None) (n - List.length raw)
  /\ this (snd after) = this w
  /\ calls (snd after) = calls w ++ flat_map (project_events (deref ptr w)) (firstn n raw)
  /\ count_events is_CopyProjector (calls (snd after)) =
       count_events is_CopyProjector (calls w) + List.length (List.filter is_ok (firstn n raw)).
Proof.
  intros after. subst after. rewrite pull_ProjectRecordBatch.
  cbn [fst snd add_calls this calls].
  repeat split. now rewrite count_events_app, project_events_copies.
Qed.

End StageClaims.

(** ** Flattening *)

Section FlattenFacts.
Context {W ItC ItP T : Type} {HP : Iterator W ItP ItC} {HC : Iterator W ItC T}.

Lemma FlattenIterator_Next_succ (fuel : nat) (f : FlattenIterator ItC ItP) (w : W) :
  FlattenIterator_Next (S fuel) f w =
    match child_ f with
    | None =>
        match Next (parent_ f) w with
        | (Err s, p', w') => Some (Err s, mkFlattenIterator None p', w')
        | (Ok None, p', w') => Some (Ok None, mkFlattenIterator None p', w')
        | (Ok (Some c), p', w') =>
            FlattenIterator_Next fuel (mkFlattenIterator (Some c) p') w'
        end
    | Some c =>
        match Next c w with
        | (Err s, c', w') => Some (Err s, mkFlattenIterator (Some c') (parent_ f), w')
        | (Ok None, _, w') =>
            FlattenIterator_Next fuel (mkFlattenIterator None (parent_ f)) w'
        | (Ok (Some x), c', w') =>
            Some (Ok (Some x), mkFlattenIterator (Some c') (parent_ f), w')
        end
    end.
Proof. reflexivity. Qed.

(** More fuel does not change a result. *)
Lemma FlattenIterator_Next_mono (fuel : nat) :
  forall (f : FlattenIterator ItC ItP) (w : W) r,
    FlattenIterator_Next fuel f w = Some r ->
    FlattenIterator_Next (S fuel) f w = Some r.
Proof.
  induction fuel as [|fuel IH]; intros f w r Hr; [discriminate|].
  rewrite FlattenIterator_Next_succ in Hr. rewrite FlattenIterator_Next_succ.
  destruct (child_ f) as [c|].
  - destruct (Next c w) as [[[[x|]|s] c'] w']; auto.
  - destruct (Next (parent_ f) w) as [[[[c|]|s] p'] w']; auto.
Qed.

Lemma FlattenIterator_Next_le (fuel fuel' : nat) (f : FlattenIterator ItC ItP) (w : W) r :
  fuel <= fuel' ->
  FlattenIterator_Next fuel f w = Some r ->
  FlattenIterator_Next fuel' f w = Some r.
Proof.
  induction 1 as [|fuel' Hle IH]; [trivial|].
  intros Hr. apply FlattenIterator_Next_mono. auto.
Qed.

Lemma FlattenIterator_collect_aux_succ (fuel pulls : nat)
    (f : FlattenIterator ItC ItP) (w : W) :
  FlattenIterator_collect_aux fuel (S pulls) f w =
    match FlattenIterator_Next fuel f w with
    | None => None
    | Some (Ok None, _, w') => Some ([], w')
    | Some (Ok (Some x), f', w') =>
        match FlattenIterator_collect_aux fuel pulls f' w' with
        | Some (rs, w'') => Some (Ok x :: rs, w'')
        | None => None
        end
    | Some (Err s, f', w') =>
        match FlattenIterator_collect_aux fuel pulls f' w' with
        | Some (rs, w'') => Some (Err s :: rs, w'')
        | None => None
        end
    end.
Proof. reflexivity. Qed.

End FlattenFacts.

(** ** GetScanTaskIterator *)

Section TaskFacts.
Context {C : Collaborators}.

Variable options : ScanOptions.
Variable context : ScanContext.

(** One pull of the wrapping iterator of a fragment: the task is wrapped
    with the captured partition, and the capture is as before. *)
Lemma wrap_Next_cons (W : Type) (partition : ExpressionPtr) (r : Result ScanTask)
    (rest : ScanTaskIterator) (w : W) :
  Next (mkMapIterator (mkwrap_scan_task_fn partition) (r :: rest : ScanTaskIterator)) w =
    (lift_result (wrap_result partition r),
     mkMapIterator (mkwrap_scan_task_fn partition) rest, w).
Proof. destruct r; reflexivity. Qed.

Lemma wrap_Next_nil (W : Type) (partition : ExpressionPtr) (w : W) :
  Next (mkMapIterator (mkwrap_scan_task_fn partition) ([] : ScanTaskIterator)) w =
    (@Ok (option FilterAndProjectScanTask) None,
     mkMapIterator (mkwrap_scan_task_fn partition) ([] : ScanTaskIterator), w).
Proof. reflexivity. Qed.

(** One pull of the iterator of per-fragment iterators. *)
Lemma fn_Next_cons (f : Result Fragment) (frs : FragmentIterator) (log : ScanLog) :
  Next (mkMapIterator (mkfn_closure options context) (f :: frs)) log =
    match f with
    | Err s => (Err s, mkMapIterator (mkfn_closure options context) frs, log)
    | Ok fragment =>
        match Scan fragment options context with
        | Err s => (Err s, mkMapIterator (mkfn_closure options context) frs, log ++ [fragment])
        | Ok tasks =>
            (Ok (Some (mkMapIterator
                         (mkwrap_scan_task_fn (partition_expression fragment)) tasks)),
             mkMapIterator (mkfn_closure options context) frs, log ++ [fragment])
        end
    end.
Proof.
  destruct f as [fragment|s]; [|reflexivity].
  erewrite MapIterator_Next_element by apply VectorIterator_Next_ok.
  unfold call, fn_call. cbn [cap_options cap_context].
  destruct (Scan fragment options context); reflexivity.
Qed.

Lemma fn_Next_nil (log : ScanLog) :
  Next (mkMapIterator (mkfn_closure options context) (@nil (Result Fragment))) log =
    (@Ok (option WrappedIterator) None, mkMapIterator (mkfn_closure options context) [], log).
Proof. reflexivity. Qed.

Lemma flatten_Next_child_cons (fuel : nat) (partition : ExpressionPtr)
    (r : Result ScanTask) (rest : ScanTaskIterator) (frs : FragmentIterator)
    (log : ScanLog) :
  FlattenIterator_Next (S fuel)
    (flatten_state options context (Some (partition, r :: rest)) frs) log =
    Some (lift_result (wrap_result partition r),
          flatten_state options context (Some (partition, rest)) frs, log).
Proof.
  rewrite FlattenIterator_Next_succ. unfold flatten_state.
  cbn [child_ parent_ option_map fst snd]. rewrite wrap_Next_cons.
  destruct r; reflexivity.
Qed.

Lemma flatten_Next_child_nil (fuel : nat) (partition : ExpressionPtr)
    (frs : FragmentIterator) (log : ScanLog) :
  FlattenIterator_Next (S fuel) (flatten_state options context (Some (partition, [])) frs) log =
    FlattenIterator_Next fuel (flatten_state options context None frs) log.
Proof. reflexivity. Qed.

Lemma flatten_Next_parent_nil (fuel : nat) (log : ScanLog) :
  FlattenIterator_Next (S fuel) (flatten_state options context None []) log =
    Some (Ok None, flatten_state options context None [], log).
Proof. reflexivity. Qed.

Lemma flatten_Next_parent_cons (fuel : nat) (f : Result Fragment)
    (frs : FragmentIterator) (log : ScanLog) :
  FlattenIterator_Next (S fuel) (flatten_state options context None (f :: frs)) log =
    match f with
    | Err s => Some (Err s, flatten_state options context None frs, log)
    | Ok fragment =>
        match Scan fragment options context with
        | Err s => Some (Err s, flatten_state options context None frs, log ++ [fragment])
        | Ok tasks =>
            FlattenIterator_Next fuel
              (flatten_state options context
                 (Some (partition_expression fragment, tasks)) frs)
              (log ++ [fragment])
        end
    end.
Proof.
  rewrite FlattenIterator_Next_succ. unfold flatten_state.
  cbn [child_ parent_ option_map]. rewrite fn_Next_cons.
  destruct f as [fragment|s]; [|reflexivity].
  destruct (Scan fragment options context); reflexivity.
Qed.

(** With fuel for the fragments still to scan, a pull returns. *)
Lemma flatten_Next_defined (frs : FragmentIterator) :
  forall child (log : ScanLog) (fuel : nat),
    flatten_depth child frs <= fuel ->
    exists r, FlattenIterator_Next fuel (flatten_state options context child frs) log = Some r.
Proof.
  unfold flatten_depth.
  induction frs as [|f frs IH]; intros child log fuel Hfuel; cbn [List.length] in Hfuel.
  - destruct fuel as [|fuel]; [lia|].
    destruct child as [[partition [|r rest]]|].
    + destruct fuel as [|fuel]; [lia|].
      rewrite flatten_Next_child_nil, flatten_Next_parent_nil. eauto.
    + rewrite flatten_Next_child_cons. eauto.
    + rewrite flatten_Next_parent_nil. eauto.
  - assert (Hnone : forall log fuel, 2 * S (List.length frs) + 1 <= fuel ->
              exists r,
                FlattenIterator_Next fuel
                  (flatten_state options context None (f :: frs)) log = Some r).
    { intros log' fuel' Hfuel'. destruct fuel' as [|fuel']; [lia|].
      rewrite flatten_Next_parent_cons.
      destruct f as [fragment|s]; [|eauto].
      destruct (Scan fragment options context) as [tasks|s]; [|eauto].
      apply IH. cbn. lia. }
    destruct fuel as [|fuel]; [lia|].
    destruct child as [[partition [|r rest]]|].
    + rewrite flatten_Next_child_nil. apply Hnone. lia.
    + rewrite flatten_Next_child_cons. eauto.
    + apply Hnone. lia.
Qed.

(** Beyond that bound the amount of fuel is irrelevant. *)
Lemma flatten_Next_child_nil_enough (fuel : nat) (partition : ExpressionPtr)
    (frs : FragmentIterator) (log : ScanLog) :
  flatten_depth (Some (partition, [])) frs <= fuel ->
  FlattenIterator_Next fuel (flatten_state options context (Some (partition, [])) frs) log =
    FlattenIterator_Next fuel (flatten_state options context None frs) log.
Proof.
  intros Hfuel. destruct fuel as [|fuel]; [unfold flatten_depth in Hfuel; lia|].
  rewrite flatten_Next_child_nil.
  destruct (flatten_Next_defined frs None log (fuel := fuel)) as [r Hr].
  { unfold flatten_depth in *. lia. }
  transitivity (Some r); [exact Hr|]. symmetry. apply FlattenIterator_Next_mono. exact Hr.
Qed.

Lemma flatten_Next_parent_cons_enough (fuel : nat) (fragment : Fragment)
    (tasks : ScanTaskIterator) (frs : FragmentIterator) (log : ScanLog) :
  flatten_depth None (Ok fragment :: frs) <= fuel ->
  Scan fragment options context = Ok tasks ->
  FlattenIterator_Next fuel (flatten_state options context None (Ok fragment :: frs)) log =
    FlattenIterator_Next fuel
      (flatten_state options context (Some (partition_expression fragment, tasks)) frs)
      (log ++ [fragment]).
Proof.
  intros Hfuel Hscan. unfold flatten_depth in Hfuel. cbn [List.length] in Hfuel.
  destruct fuel as [|fuel]; [lia|].
  rewrite flatten_Next_parent_cons, Hscan.
  destruct (flatten_Next_defined frs (Some (partition_expression fragment, tasks))
              (log ++ [fragment]) (fuel := fuel)) as [r Hr].
  { unfold flatten_depth. lia. }
  transitivity (Some r); [exact Hr|]. symmetry. apply FlattenIterator_Next_mono. exact Hr.
Qed.

Lemma collect_aux_same_Next (fuel pulls : nat)
    (f f' : FlattenIterator WrappedIterator (MapIterator fn_closure FragmentIterator))
    (log log' : ScanLog) :
  FlattenIterator_Next fuel f log = FlattenIterator_Next fuel f' log' ->
  FlattenIterator_collect_aux fuel (S pulls) f log =
  FlattenIterator_collect_aux fuel (S pulls) f' log'.
Proof. intros Heq. rewrite !FlattenIterator_collect_aux_succ, Heq. reflexivity. Qed.

(** Collecting from any state of the flattened iterator: what the fragment
    being unfolded still contributes, then the contributions of the fragments
    still to scan, in order; these fragments, and no others, are scanned. *)
Lemma collect_aux_flatten (frs : FragmentIterator) :
  forall child (log : ScanLog) (fuel pulls : nat),
    flatten_depth child frs <= fuel ->
    List.length (pending child ++ flat_map (contribution options context) frs) < pulls ->
    FlattenIterator_collect_aux fuel pulls (flatten_state options context child frs) log =
      Some (pending child ++ flat_map (contribution options context) frs,
            log ++ flat_map scanned frs).
Proof.
  induction frs as [|f frs IH].
  - (* no fragment left *)
    assert (Hnone : forall log fuel pulls, 1 <= fuel -> 0 < pulls ->
              FlattenIterator_collect_aux fuel pulls
                (flatten_state options context None []) log = Some ([], log)).
    { intros log fuel pulls Hfuel Hpulls.
      destruct pulls as [|pulls]; [lia|]. destruct fuel as [|fuel]; [lia|].
      rewrite FlattenIterator_collect_aux_succ, flatten_Next_parent_nil. reflexivity. }
    intros [[partition tasks]|] log fuel pulls Hfuel Hpulls;
      unfold flatten_depth in Hfuel; cbn [List.length] in Hfuel;
      cbn [flat_map pending] in *; rewrite ?app_nil_r in *.
    + revert log pulls Hpulls.
      induction tasks as [|r rest IHt]; intros log pulls Hpulls;
        (destruct pulls as [|pulls]; [cbn in Hpulls; lia|]).
      * erewrite collect_aux_same_Next
          by (apply flatten_Next_child_nil_enough; unfold flatten_depth; cbn; lia).
        apply Hnone; lia.
      * destruct fuel as [|fuel]; [lia|].
        rewrite FlattenIterator_collect_aux_succ, flatten_Next_child_cons.
        cbn [List.length map] in Hpulls.
        destruct r as [task|s]; cbn [wrap_result lift_result map];
          rewrite IHt by lia; reflexivity.
    + apply Hnone; lia.
  - (* a fragment left *)
    assert (Hnone : forall log fuel pulls,
              2 * S (List.length frs) + 1 <= fuel ->
              List.length (flat_map (contribution options context) (f :: frs)) < pulls ->
              FlattenIterator_collect_aux fuel pulls
                (flatten_state options context None (f :: frs)) log =
                Some (flat_map (contribution options context) (f :: frs),
                      log ++ flat_map scanned (f :: frs))).
    { intros log fuel pulls Hfuel Hpulls.
      destruct pulls as [|pulls]; [lia|].
      cbn [flat_map] in *. rewrite length_app in Hpulls.
      assert (Hd : forall child, flatten_depth child frs <= fuel).
      { intros child. unfold flatten_depth. destruct child; lia. }
      destruct f as [fragment|s]; cbn [contribution scanned] in *.
      - destruct (Scan fragment options context) as [tasks|s] eqn:Hscan.
        + erewrite collect_aux_same_Next.
          2:{ apply flatten_Next_parent_cons_enough; [|exact Hscan].
              unfold flatten_depth. cbn [List.length]. lia. }
          rewrite IH; [|apply Hd|cbn [pending]; rewrite length_app; lia].
          cbn [pending]. now rewrite <- app_assoc.
        + destruct fuel as [|fuel]; [lia|].
          rewrite FlattenIterator_collect_aux_succ, flatten_Next_parent_cons, Hscan.
          rewrite (IH None); [|apply Hd|cbn [pending List.length app] in *; lia].
          cbn [pending app]. now rewrite <- app_assoc.
      - destruct fuel as [|fuel]; [lia|].
        rewrite FlattenIterator_collect_aux_succ, flatten_Next_parent_cons.
        rewrite (IH None); [|apply Hd|cbn [pending List.length app] in *; lia].
        reflexivity. }
    intros [[partition tasks]|] log fuel pulls Hfuel Hpulls;
      unfold flatten_depth in Hfuel; cbn [List.length] in Hfuel; cbn [pending] in *.
    + revert log pulls Hpulls.
      induction tasks as [|r rest IHt]; intros log pulls Hpulls.
      * destruct pulls as [|pulls]; [lia|].
        erewrite collect_aux_same_Next
          by (apply flatten_Next_child_nil_enough; unfold flatten_depth;
              cbn [List.length]; lia).
        apply Hnone; [lia|exact Hpulls].
      * destruct pulls as [|pulls]; [lia|].
        destruct fuel as [|fuel]; [lia|].
        rewrite FlattenIterator_collect_aux_succ, flatten_Next_child_cons.
        cbn [List.length map app] in Hpulls.
        destruct r as [task|s]; cbn [wrap_result lift_result map app];
          rewrite IHt by lia; reflexivity.
    + apply Hnone; [lia|exact Hpulls].
Qed.

Lemma FlattenIterator_pull_succ (fuel n : nat)
    (f : FlattenIterator WrappedIterator (MapIterator fn_closure FragmentIterator))
    (log : ScanLog) :
  FlattenIterator_pull fuel (S n) f log =
    match FlattenIterator_Next fuel f log with
    | None => None
    | Some (r, f', w') =>
        match FlattenIterator_pull fuel n f' w' with
        | Some (rs, f'', w'') => Some (r :: rs, f'', w'')
        | None => None
        end
    end.
Proof. reflexivity. Qed.

Lemma pull_same_Next (fuel n : nat)
    (f f' : FlattenIterator WrappedIterator (MapIterator fn_closure FragmentIterator))
    (log log' : ScanLog) :
  FlattenIterator_Next fuel f log = FlattenIterator_Next fuel f' log' ->
  FlattenIterator_pull fuel (S n) f log = FlattenIterator_pull fuel (S n) f' log'.
Proof. intros Heq. rewrite !FlattenIterator_pull_succ, Heq. reflexivity. Qed.

(** Pulling up to the [j]-th task of a fragment [later]: the elements are
    what is pending, the contributions of the fragments before it and its
    first [j] tasks; the fragments scanned are those up to it, and the
    fragments after it are still to be asked. *)
Lemma pull_flatten_prefix (before : FragmentIterator) (later : Fragment)
    (tasks : ScanTaskIterator) (after : FragmentIterator) (j : nat) :
  Scan later options context = Ok tasks ->
  1 <= j <= List.length tasks ->
  forall child (log : ScanLog) (fuel : nat),
    flatten_depth child (before ++ Ok later :: after) <= fuel ->
    FlattenIterator_pull fuel
      (List.length (pending child ++ flat_map (contribution options context) before) + j)
      (flatten_state options context child (before ++ Ok later :: after)) log =
      Some (map lift_result
              (pending child ++ flat_map (contribution options context) before
                 ++ firstn j (map (wrap_result (partition_expression later)) tasks)),
            flatten_state options context
              (Some (partition_expression later, skipn j tasks)) after,
            log ++ flat_map scanned before ++ [later]).
Proof.
  intros Hscan Hj.
  (* within the fragment [later] *)
  assert (Hwithin : forall i ts (log : ScanLog) (fuel : nat),
            1 <= fuel -> i <= List.length ts ->
            FlattenIterator_pull fuel i
              (flatten_state options context (Some (partition_expression later, ts)) after)
              log =
            Some (map lift_result
                    (firstn i (map (wrap_result (partition_expression later)) ts)),
                  flatten_state options context
                    (Some (partition_expression later, skipn i ts)) after,
                  log)).
  { induction i as [|i IHi]; intros ts log fuel Hfuel Hi; [reflexivity|].
    destruct ts as [|r ts]; [cbn in Hi; lia|]. destruct fuel as [|fuel]; [lia|].
    rewrite FlattenIterator_pull_succ, flatten_Next_child_cons.
    rewrite IHi by (cbn in Hi; lia). reflexivity. }
  induction before as [|f before IH].
  - (* [later] is the next fragment *)
    assert (Hnone : forall (log : ScanLog) (fuel : nat),
              flatten_depth None (Ok later :: after) <= fuel ->
              FlattenIterator_pull fuel j
                (flatten_state options context None (Ok later :: after)) log =
              Some (map lift_result
                      (firstn j (map (wrap_result (partition_expression later)) tasks)),
                    flatten_state options context
                      (Some (partition_expression later, skipn j tasks)) after,
                    log ++ [later])).
    { intros log fuel Hfuel. destruct j as [|j']; [lia|].
      erewrite pull_same_Next
        by (apply flatten_Next_parent_cons_enough; [exact Hfuel|exact Hscan]).
      apply Hwithin; [unfold flatten_depth in Hfuel; lia|lia]. }
    intros [[partition ts]|] log fuel Hfuel;
      cbn [app flat_map pending List.length] in *; rewrite ?app_nil_r.
    + unfold flatten_depth in Hfuel. cbn [List.length] in Hfuel. revert log.
      induction ts as [|r ts IHt]; intros log.
      * destruct j as [|j']; [lia|]. cbn [map List.length Nat.add app].
        erewrite pull_same_Next
          by (apply flatten_Next_child_nil_enough; unfold flatten_depth;
              cbn [List.length]; lia).
        apply Hnone. unfold flatten_depth. cbn [List.length]. lia.
      * destruct fuel as [|fuel]; [lia|].
        cbn [map List.length Nat.add app].
        rewrite FlattenIterator_pull_succ, flatten_Next_child_cons, IHt.
        reflexivity.
    + apply Hnone. exact Hfuel.
  - (* a fragment before [later] *)
    assert (Hnone : forall (log : ScanLog) (fuel : nat),
              flatten_depth None ((f :: before) ++ Ok later :: after) <= fuel ->
              FlattenIterator_pull fuel
                (List.length (flat_map (contribution options context) (f :: before)) + j)
                (flatten_state options context None ((f :: before) ++ Ok later :: after))
                log =
              Some (map lift_result
                      (flat_map (contribution options context) (f :: before)
                         ++ firstn j (map (wrap_result (partition_expression later)) tasks)),
                    flatten_state options context
                      (Some (partition_expression later, skipn j tasks)) after,
                    log ++ flat_map scanned (f :: before) ++ [later])).
    { intros log fuel Hfuel. unfold flatten_depth in Hfuel.
      cbn [app List.length] in Hfuel.
      assert (Hd : forall child,
                flatten_depth child (before ++ Ok later :: after) <= fuel).
      { intros child. unfold flatten_depth. destruct child; lia. }
      cbn [flat_map app]. rewrite length_app.
      destruct f as [fragment|s]; cbn [contribution scanned].
      - destruct (Scan fragment options context) as [ts|s] eqn:Hts.
        + replace (List.length (map (wrap_result (partition_expression fragment)) ts)
                     + List.length (flat_map (contribution options context) before) + j)
            with (S (List.length (map (wrap_result (partition_expression fragment)) ts)
                       + List.length (flat_map (contribution options context) before)
                       + (j - 1))) by lia.
          erewrite pull_same_Next.
          2:{ apply flatten_Next_parent_cons_enough; [|exact Hts].
              unfold flatten_depth. cbn [List.length]. lia. }
          replace (S (List.length (map (wrap_result (partition_expression fragment)) ts)
                        + List.length (flat_map (contribution options context) before)
                        + (j - 1)))
            with (List.length
                    (pending (Some (partition_expression fragment, ts))
                       ++ flat_map (contribution options context) before) + j)
            by (cbn [pending]; rewrite length_app; lia).
          rewrite IH by apply Hd. cbn [pending].
          rewrite <- !app_assoc. reflexivity.
        + destruct fuel as [|fuel]; [lia|].
          cbn [List.length Nat.add app].
          rewrite FlattenIterator_pull_succ, flatten_Next_parent_cons, Hts.
          change (List.length (flat_map (contribution options context) before) + j)
            with (List.length
                    (pending None ++ flat_map (contribution options context) before) + j).
          rewrite IH by apply Hd. cbn [pending app map lift_result].
          rewrite <- !app_assoc. reflexivity.
      - destruct fuel as [|fuel]; [lia|].
        cbn [List.length Nat.add app].
        rewrite FlattenIterator_pull_succ, flatten_Next_parent_cons.
        change (List.length (flat_map (contribution options context) before) + j)
          with (List.length
                  (pending None ++ flat_map (contribution options context) before) + j).
        rewrite IH by apply Hd. reflexivity. }
    intros [[partition ts]|] log fuel Hfuel; cbn [pending] in *.
    + unfold flatten_depth in Hfuel. cbn [app List.length] in Hfuel. revert log.
      induction ts as [|r ts IHt]; intros log.
      * cbn [map app]. destruct j as [|j']; [lia|].
        rewrite Nat.add_succ_r.
        erewrite pull_same_Next
          by (apply flatten_Next_child_nil_enough; unfold flatten_depth;
              cbn [app List.length]; lia).
        rewrite <- Nat.add_succ_r.
        apply Hnone. unfold flatten_depth. cbn [app List.length]. lia.
      * destruct fuel as [|fuel]; [lia|].
        cbn [map List.length Nat.add app].
        rewrite FlattenIterator_pull_succ, flatten_Next_child_cons, IHt.
        reflexivity.
    + apply Hnone. exact Hfuel.
Qed.

(** The flattened sequence of [GetScanTaskIterator] is the concatenation of
    the fragments' contributions. *)
Lemma GetScanTaskIterator_collect (frs : FragmentIterator) (log : ScanLog) (fuel : nat) :
  2 * List.length frs + List.length (flat_map (contribution options context) frs) + 2 <= fuel ->
  FlattenIterator_collect fuel (GetScanTaskIterator frs options context) log =
    Some (flat_map (contribution options context) frs, log ++ flat_map scanned frs).
Proof.
  intros Hfuel. unfold FlattenIterator_collect.
  change (GetScanTaskIterator frs options context) with (flatten_state options context None frs).
  rewrite collect_aux_flatten; [reflexivity| |].
  - unfold flatten_depth. lia.
  - cbn [pending app]. lia.
Qed.

End TaskFacts.

Section TaskClaims.
Context {C : Collaborators}.

Lemma pull_wrap (W : Type) (n : nat) :
  forall (partition : ExpressionPtr) (tasks : ScanTaskIterator) (w : W),
    pull n (mkMapIterator (mkwrap_scan_task_fn partition) tasks) w =
      (map (fun r => lift_result (wrap_result partition r)) (firstn n tasks)
         ++ repeat (Ok None) (n - List.length tasks),
       mkMapIterator (mkwrap_scan_task_fn partition) (skipn n tasks), w).
Proof.
  induction n as [|n IH]; intros partition tasks w; [reflexivity|].
  rewrite pull_succ. destruct tasks as [|r rest].
  - rewrite wrap_Next_nil, IH, firstn_nil, skipn_nil, Nat.sub_0_r. reflexivity.
  - rewrite wrap_Next_cons, IH. reflexivity.
Qed.

Lemma contribution_all_ok (options : ScanOptions) (context : ScanContext)
    (fts : list (Fragment * list ScanTask)) :
  Forall (fun ft => Scan (fst ft) options context = Ok (map Ok (snd ft))) fts ->
  flat_map (contribution options context) (map (fun ft => Ok (fst ft)) fts) =
    map Ok (flat_map (fun ft => decorate (fst ft) (snd ft)) fts)
  /\ flat_map scanned (map (fun ft => Ok (fst ft)) fts) = map fst fts.
Proof.
  induction 1 as [|[fragment tasks] fts Hscan _ [IHc IHs]]; [split; reflexivity|].
  cbn [map flat_map fst snd contribution scanned app] in *.
  rewrite Hscan, IHc, IHs, map_app. split; [|reflexivity].
  f_equal. unfold decorate. rewrite !map_map. reflexivity.
Qed.

(** C4.  For fragments whose scans yield their raw tasks, the flattened
    sequence is the decorated tasks of the first fragment in their order,
    then those of the second, and so on to the end marker.  And when the
    [j]-th task of a fragment has just been yielded, the elements yielded so
    far are the tasks of the fragments before it and its first [j] tasks,
    the fragments scanned are those up to it, and the fragments after it have
    not been pulled from the fragment sequence. *)
Theorem GetScanTaskIterator_preserves_order
    (fts : list (Fragment * list ScanTask))
    (options : ScanOptions) (context : ScanContext) (fuel : nat) :
  Forall (fun ft => Scan (fst ft) options context = Ok (map Ok (snd ft))) fts ->
  2 * List.length fts + List.length (flat_map snd fts) + 2 <= fuel ->
  FlattenIterator_collect fuel
    (GetScanTaskIterator (map (fun ft => Ok (fst ft)) fts) options context) [] =
    Some (map Ok (flat_map (fun ft => decorate (fst ft) (snd ft)) fts), map fst fts)
  /\ forall before fragment tasks after j,
       fts = before ++ (fragment, tasks) :: after ->
       1 <= j <= List.length tasks ->
       FlattenIterator_pull fuel (List.length (flat_map snd before) + j)
         (GetScanTaskIterator (map (fun ft => Ok (fst ft)) fts) options context) [] =
         Some (map (fun d => Ok (Some d))
                 (flat_map (fun ft => decorate (fst ft) (snd ft)) before
                    ++ firstn j (decorate fragment tasks)),
               flatten_state options context
                 (Some (partition_expression fragment, skipn j (map Ok tasks)))
                 (map (fun ft => Ok (fst ft)) after),
               map fst before ++ [fragment]).
Proof.
  intros Hscan Hfuel.
  assert (Hlen : forall l : list (Fragment * list ScanTask),
            List.length (flat_map (fun ft => decorate (fst ft) (snd ft)) l) =
            List.length (flat_map snd l)).
  { induction l as [|ft l IH]; [reflexivity|].
    cbn [flat_map]. rewrite !length_app, IH. unfold decorate. now rewrite length_map. }
  split.
  - destruct (contribution_all_ok options context Hscan) as [Hc Hs].
    rewrite <- Hc, <- Hs.
    apply (GetScanTaskIterator_collect options context
             (map (fun ft => Ok (fst ft)) fts) [] (fuel := fuel)).
    rewrite Hc, !length_map, Hlen. lia.
  - intros before fragment tasks after j -> Hj.
    apply Forall_app in Hscan. destruct Hscan as [Hbefore Hrest].
    apply Forall_cons_iff in Hrest. destruct Hrest as [Hfragment _].
    cbn [fst snd] in Hfragment.
    destruct (contribution_all_ok options context Hbefore) as [Hc Hs].
    pose proof (pull_flatten_prefix options context
                  (map (fun ft => Ok (fst ft)) before) fragment
                  (map (fun ft => Ok (fst ft)) after) (j := j) Hfragment) as Hpull.
    rewrite length_map in Hpull. specialize (Hpull Hj None [] fuel).
    cbn [pending app] in Hpull. rewrite Hc, Hs, length_map, Hlen in Hpull.
    rewrite map_app. cbn [map fst].
    etransitivity; [apply Hpull|].
    + unfold flatten_depth. rewrite length_app in Hfuel |- *.
      cbn [List.length] in Hfuel |- *. rewrite !length_map. lia.
    + f_equal. f_equal. f_equal.
      rewrite !map_app, map_map. f_equal.
      unfold decorate. rewrite !map_map, <- !firstn_map, !map_map. reflexivity.
Qed.

(** C5.  When the scan of a fragment fails and the scan of a later fragment
    succeeds, the flattened sequence has, between the contributions of the
    fragments before and after the failing one, exactly one element for it,
    the error, and further on the decorated tasks of the later fragment. *)
Theorem GetScanTaskIterator_isolates_scan_failure
    (before between after : FragmentIterator) (failing later : Fragment)
    (s : Status) (tasks : ScanTaskIterator)
    (options : ScanOptions) (context : ScanContext) (fuel : nat) :
  Scan failing options context = Err s ->
  Scan later options context = Ok tasks ->
  let frs := before ++ Ok failing :: between ++ Ok later :: after in
  2 * List.length frs + List.length (flat_map (contribution options context) frs) + 2 <= fuel ->
  FlattenIterator_collect fuel (GetScanTaskIterator frs options context) [] =
    Some (flat_map (contribution options context) before
            ++ Err s
            :: flat_map (contribution options context) between
            ++ map (wrap_result (partition_expression later)) tasks
            ++ flat_map (contribution options context) after,
          flat_map scanned frs).
Proof.
  intros Hfail Hlater frs Hfuel.
  pose proof (GetScanTaskIterator_collect options context frs [] Hfuel) as Hcollect.
  cbn [app] in Hcollect. etransitivity; [exact Hcollect|]. f_equal. f_equal.
  subst frs. rewrite !flat_map_app. cbn [flat_map contribution app].
  rewrite Hfail, !flat_map_app. cbn [flat_map contribution app].
  rewrite Hlater. reflexivity.
Qed.

(** C10.  For a fragment whose scan succeeds, the per-fragment iterator
    that [fn] returns wraps each raw task, the second and later ones as the
    first, with the fragment's partition expression: after any number of
    pulls the closure still holds that partition, and every decorated task
    yielded carries it. *)
Theorem wrap_scan_task_copies_partition (fn : fn_closure) (fragment : Fragment)
    (tasks : ScanTaskIterator) (log : ScanLog) :
  Scan fragment (cap_options fn) (cap_context fn) = Ok tasks ->
  exists child : WrappedIterator,
    call fn fragment log = (Ok child, fn, log ++ [fragment])
    /\ forall n,
         fst (fst (pull n child (log ++ [fragment]))) =
           map (fun r => lift_result (wrap_result (partition_expression fragment) r))
             (firstn n tasks) ++ repeat (Ok None) (n - List.length tasks)
         /\ cap_partition (map_ (snd (fst (pull n child (log ++ [fragment]))))) =
              partition_expression fragment
         /\ forall d, In (Ok (Some d)) (fst (fst (pull n child (log ++ [fragment])))) ->
                      partition_ d = partition_expression fragment.
Proof.
  intros Hscan.
  exists (mkMapIterator (mkwrap_scan_task_fn (partition_expression fragment)) tasks).
  split.
  - unfold call, fn_call. rewrite Hscan. reflexivity.
  - intros n. unfold WrappedIterator. rewrite pull_wrap. cbn [fst snd map_ cap_partition].
    split; [reflexivity|]. split; [reflexivity|].
    intros d Hin. apply in_app_or in Hin. destruct Hin as [Hin|Hin].
    + apply in_map_iff in Hin. destruct Hin as ([task|s'] & Heq & _); [|discriminate].
      cbn in Heq. injection Heq as <-. reflexivity.
    + apply repeat_spec in Hin. discriminate.
Qed.

End TaskClaims.

(** ** Where a yielded batch comes from *)

Section Provenance.
Context {C : Collaborators}.

(** A batch yielded by the stages of a task is the projection, by a copy of
    [projector_] as it is during the pulls, of the filtering of a raw batch. *)
Lemma pulled_from_stages (t : FilterAndProjectScanTask) (raw : RecordBatchIterator)
    (w : World) (n : nat) (out : RecordBatch) :
  In (Ok (Some out)) (fst (fst (pull n (stages_of t raw) w))) ->
  exists batch selection filtered,
    In (Ok batch) raw
    /\ Evaluate (evaluator (options_ t)) (Assume_ptr (filter (options_ t)) (partition_ t))
         batch (pool (context_ t)) = Ok selection
    /\ Filter (evaluator (options_ t)) selection batch = Ok filtered
    /\ fst (Project (projector_ (this w)) filtered (pool (context_ t))) = Ok out.
Proof.
  unfold stages_of, ProjectedIterator, FilteredIterator.
  rewrite pull_pipeline. cbn [fst deref].
  intros Hin. apply in_app_or in Hin. destruct Hin as [Hin|Hin].
  2:{ apply repeat_spec in Hin. discriminate. }
  apply in_map_iff in Hin. destruct Hin as (item & Hitem & Hfirst).
  assert (Hraw : In item raw).
  { rewrite <- (firstn_skipn n raw). apply in_or_app. now left. }
  destruct item as [b|s]; [|discriminate]. cbn [item_result] in Hitem.
  destruct (Evaluate (evaluator (options_ t))
              (Assume_ptr (filter (options_ t)) (partition_ t)) b
              (pool (context_ t))) as [selection|s] eqn:He; [|discriminate].
  destruct (Filter (evaluator (options_ t)) selection b) as [filtered|s] eqn:Hf;
    [|discriminate].
  destruct (fst (Project (projector_ (this w)) filtered (pool (context_ t))))
    as [out'|s] eqn:Hproj; [|discriminate].
  injection Hitem as ->. exists b, selection, filtered. auto.
Qed.

End Provenance.

(** ** The reference collaborators *)

Module ModelFacts.
Import Model.

Lemma lookup_app (A : Type) (k : string) (l r : list (string * A)) :
  lookup k (l ++ r) =
    match lookup k l with
    | Some v => Some v
    | None => lookup k r
    end.
Proof.
  induction l as [|[k' v'] l IH]; [reflexivity|].
  cbn [app lookup]. destruct (String.eqb k k'); [reflexivity|exact IH].
Qed.

(** Masking columns and reading rows commute. *)
Lemma take_mask_rows_of (mask : list bool) :
  forall cols : list (list Scalar),
    Forall (fun c => List.length c = List.length mask) cols ->
    rows_of (List.length (List.filter (fun x : bool => x) mask)) (map (take_mask mask) cols) =
    take_mask mask (rows_of (List.length mask) cols).
Proof.
  induction mask as [|b mask IH]; intros cols Hall; [reflexivity|].
  assert (Htl : Forall (fun c => List.length c = List.length mask) (map (@tl Scalar) cols)).
  { apply Forall_map. eapply Forall_impl; [|exact Hall].
    intros [|x c] Hc; cbn in *; [discriminate|lia]. }
  assert (Hhd : map (hd Null) (map (take_mask (true :: mask)) cols) = map (hd Null) cols).
  { rewrite map_map. apply map_ext_in. intros c Hc.
    rewrite Forall_forall in Hall. specialize (Hall c Hc).
    destruct c; [discriminate|reflexivity]. }
  assert (Htrue : map (@tl Scalar) (map (take_mask (true :: mask)) cols) =
                  map (take_mask mask) (map (@tl Scalar) cols)).
  { rewrite !map_map. apply map_ext_in. intros c Hc.
    rewrite Forall_forall in Hall. specialize (Hall c Hc).
    destruct c; [discriminate|reflexivity]. }
  assert (Hfalse : map (take_mask (false :: mask)) cols =
                   map (take_mask mask) (map (@tl Scalar) cols)).
  { rewrite map_map. apply map_ext_in. intros c Hc.
    rewrite Forall_forall in Hall. specialize (Hall c Hc).
    destruct c; [discriminate|reflexivity]. }
  destruct b; cbn [List.filter List.length rows_of].
  - rewrite Hhd, Htrue, IH by exact Htl. reflexivity.
  - rewrite Hfalse, IH by exact Htl. reflexivity.
Qed.

(** The evaluator's contract holds of the reference [filter_batch]. *)
Lemma filter_batch_rows (mask : list bool) (b out : Batch) :
  filter_batch mask b = Ok out ->
  batch_rows out = take_mask mask (batch_rows b).
Proof.
  unfold filter_batch.
  destruct ((List.length mask =? num_rows b) && well_formed b) eqn:Hcond; [|discriminate].
  apply andb_prop in Hcond. destruct Hcond as [Hlen Hwf].
  apply Nat.eqb_eq in Hlen. intros [= <-].
  unfold batch_rows. cbn [columns Model.num_rows].
  rewrite map_map. cbn [snd]. rewrite <- (map_map snd (take_mask mask)), <- Hlen.
  apply take_mask_rows_of. apply Forall_map.
  unfold well_formed in Hwf. rewrite forallb_forall in Hwf.
  apply Forall_forall. intros c Hc. specialize (Hwf c Hc).
  apply Nat.eqb_eq in Hwf. lia.
Qed.

Lemma filter_batch_column (mask : list bool) (b out : Batch) (k : string) :
  filter_batch mask b = Ok out ->
  column k out = option_map (take_mask mask) (column k b).
Proof.
  unfold filter_batch.
  destruct ((List.length mask =? num_rows b) && well_formed b); [|discriminate].
  intros [= <-]. unfold column. cbn [columns].
  induction (columns b) as [|[k' c] cols IH]; [reflexivity|].
  cbn [map lookup fst snd]. destruct (String.eqb k k'); [reflexivity|exact IH].
Qed.

(** Setting defaults from keys keeps the target schema, and the latest
    binding of a column of the schema is its default. *)
Lemma set_defaults_from_keys_schema (e : Expr) (p : Projector) :
  to_schema (snd (set_defaults_from_keys e p)) = to_schema p.
Proof.
  unfold set_defaults_from_keys. cbn [snd]. revert p.
  induction (keys e) as [|kv ks IH]; intros p; [reflexivity|].
  cbn [fold_left]. rewrite IH.
  destruct (existsb (String.eqb (fst kv)) (to_schema p)); reflexivity.
Qed.

Lemma set_defaults_from_keys_lookup (e : Expr) (p : Projector) (k : string) :
  existsb (String.eqb k) (to_schema p) = true ->
  lookup k (defaults (snd (set_defaults_from_keys e p))) =
    match lookup k (rev (keys e)) with
    | Some v => Some v
    | None => lookup k (defaults p)
    end.
Proof.
  unfold set_defaults_from_keys. cbn [snd]. revert p.
  induction (keys e) as [|[k' v'] ks IH]; intros p Hk; [reflexivity|].
  cbn [fold_left fst rev]. rewrite lookup_app. cbn [lookup].
  rewrite IH.
  - destruct (lookup k (rev ks)); [reflexivity|].
    destruct (String.eqb k k') eqn:Hkk.
    + apply String.eqb_eq in Hkk. subst k'. rewrite Hk.
      cbn [set_default defaults lookup]. now rewrite String.eqb_refl.
    + destruct (existsb (String.eqb k') (to_schema p)); [|reflexivity].
      cbn [set_default defaults lookup]. now rewrite Hkk.
  - destruct (existsb (String.eqb k') (to_schema p)); exact Hk.
Qed.

(** Projection fills a missing column of the target schema with its
    default, once per row. *)
Lemma project_columns_default (schema : list string) (dflt : list (string * Scalar))
    (b : Batch) (k : string) (v : Scalar) :
  forall cols,
    project_columns schema dflt b = Ok cols ->
    existsb (String.eqb k) schema = true ->
    column k b = None ->
    lookup k dflt = Some v ->
    lookup k cols = Some (repeat v (num_rows b)).
Proof.
  induction schema as [|name rest IH]; intros cols Hcols Hin Hmiss Hdflt; [discriminate|].
  cbn [project_columns] in Hcols. cbn [existsb] in Hin.
  destruct (String.eqb k name) eqn:Hk.
  - apply String.eqb_eq in Hk. subst name. rewrite Hmiss, Hdflt in Hcols.
    destruct (project_columns rest dflt b); [|discriminate].
    injection Hcols as <-. cbn [lookup]. now rewrite String.eqb_refl.
  - cbn [orb] in Hin.
    destruct (match column name b with
              | Some c => Ok c
              | None => match lookup name dflt with
                        | Some v0 => Ok (repeat v0 (num_rows b))
                        | None => Err (mkStatus TypeError "missing column with no default")
                        end
              end) as [c|s]; [|discriminate].
    destruct (project_columns rest dflt b) as [cols'|s] eqn:Hrest; [|discriminate].
    injection Hcols as <-. cbn [lookup]. rewrite Hk. now apply IH.
Qed.

Lemma project_default (p : Projector) (b out : Batch) (k : string) (v : Scalar) :
  fst (project p b tt) = Ok out ->
  existsb (String.eqb k) (to_schema p) = true ->
  column k b = None ->
  lookup k (defaults p) = Some v ->
  column k out = Some (repeat v (num_rows out)).
Proof.
  unfold project. cbn [fst].
  destruct (project_columns (to_schema p) (defaults p) b) as [cols|s] eqn:Hcols;
    [|discriminate].
  intros [= <-] Hin Hmiss Hdflt. unfold column. cbn [columns Model.num_rows].
  eapply project_columns_default; eassumption.
Qed.

(** The projector's contract holds of the reference collaborators. *)
Lemma set_defaults_from_keys_sets (e : Expr) (p : Projector) (k : string) (v : Scalar) :
  is_ok (fst (set_defaults_from_keys e p)) = true ->
  binding e k = Some v ->
  targets p k = true ->
  targets (snd (set_defaults_from_keys e p)) k = true
  /\ default_of (snd (set_defaults_from_keys e p)) k = Some v.
Proof.
  unfold binding, targets, default_of. intros _ Hkey Hschema. split.
  - rewrite set_defaults_from_keys_schema. exact Hschema.
  - rewrite set_defaults_from_keys_lookup by exact Hschema. now rewrite Hkey.
Qed.

Lemma filter_batch_has (ev : unit) (mask : list bool) (b out : Batch) (k : string) :
  filter_batch mask b = Ok out ->
  has out k = has b k.
Proof.
  intros Hf. unfold has. rewrite (@filter_batch_column mask b out k Hf).
  destruct (column k b); reflexivity.
Qed.

Lemma project_constant (p : Projector) (b : Batch) (mem : unit) (out : Batch)
    (k : string) (v : Scalar) :
  fst (project p b mem) = Ok out ->
  targets p k = true ->
  has b k = false ->
  default_of p k = Some v ->
  constant out k v.
Proof.
  unfold targets, has, default_of, constant. destruct mem. intros Hproj Hin Hmiss Hdflt.
  eapply project_default; [exact Hproj|exact Hin| |exact Hdflt].
  destruct (column k b); [discriminate|reflexivity].
Qed.

End ModelFacts.

(** ** Partition defaults *)

Section PartitionDefaults.
Context {C : Collaborators} {PC : PartitionDefaultsContract C}.

(** A batch that comes through filtering and projection by a projector with
    a default for a column of its schema that the batch lacks has that
    default in every row of the column. *)
Lemma item_result_constant_column (ev : ExpressionEvaluator) (predicate : Expression)
    (mem : MemoryPool) (proj : RecordBatchProjector) (b out : RecordBatch)
    (k : Column) (v : Value) :
  item_result ev predicate mem proj (Ok b) = Ok (Some out) ->
  in_schema proj k = true ->
  default_value proj k = Some v ->
  has_column b k = false ->
  constant_column out k v.
Proof.
  cbn [item_result]. intros Hitem Hschema Hdflt Hmiss.
  destruct (Evaluate ev predicate b mem) as [selection|s]; [|discriminate].
  destruct (Filter ev selection b) as [filtered|s] eqn:Hf; [|discriminate].
  destruct (fst (Project proj filtered mem)) as [out'|s] eqn:Hproj; [|discriminate].
  injection Hitem as ->.
  eapply Project_inserts_default; [exact Hproj|exact Hschema| |exact Hdflt].
  rewrite (Filter_keeps_columns _ _ _ k Hf). exact Hmiss.
Qed.

(** C6.  For a task with a partition predicate [p] whose wrapped task
    starts and whose [SetDefaultValuesFromKeys] succeeds, [Execute()] calls
    [SetDefaultValuesFromKeys] on [p] and [projector_] after [Assume] and
    before it returns the projection stage over the filter stage, and
    [projector_] is left as that call made it.  If [p] binds the column [k]
    of the target schema to [v], then [v] is the default of [k] in
    [projector_] after [Execute()].  The returned sequence yields, for each
    raw element in order, its filtering by the specialized predicate
    projected by a copy of that [projector_].  If no raw batch has a column
    [k], the column [k] of every batch the sequence yields is [v] in every
    row; and when every raw batch comes through evaluation, filtering and
    projection, the consumer gets one such batch per raw batch and then the
    end. *)
Theorem Execute_injects_partition_defaults (w : World) (p : Expression)
    (raw : RecordBatchIterator) (k : Column) (v : Value) :
  partition_ (this w) = Some p ->
  ScanTask_Execute (task_ (this w)) = Ok raw ->
  is_ok (fst (SetDefaultValuesFromKeys p (projector_ (this w)))) = true ->
  key_value p k = Some v ->
  in_schema (projector_ (this w)) k = true ->
  forallb (fun r : Result RecordBatch =>
             match r with
             | Ok b => negb (has_column b k)
             | Err _ => true
             end) raw = true ->
  let t := this w in
  let injected := snd (SetDefaultValuesFromKeys p (projector_ t)) in
  let ev := evaluator (options_ t) in
  let specialized := Assume (filter (options_ t)) p in
  let mem := pool (context_ t) in
  let w' := snd (Execute w) in
  Execute w =
    (Ok (stages_of t raw),
     {| this := with_projector_ injected (with_filter_ (Some specialized) t);
        calls := calls w ++ [CallExecute (task_ t);
                             CallAssume (filter (options_ t)) (Some p);
                             CallSetDefaultValuesFromKeys p] |})
  /\ default_value (projector_ (this w')) k = Some v
  /\ (forall n,
        fst (fst (pull n (stages_of t raw) w')) =
          map (item_result ev specialized mem injected) (firstn n raw)
            ++ repeat (Ok None) (n - List.length raw))
  /\ (forall n out,
        In (Ok (Some out)) (fst (fst (pull n (stages_of t raw) w'))) ->
        constant_column out k v)
  /\ (forall batches outs,
        raw = map Ok batches ->
        Forall2 (fun b out =>
                   item_result ev specialized mem injected (Ok b) = Ok (Some out))
          batches outs ->
        fst (fst (visit (S (List.length raw)) (stages_of t raw) w')) = (outs, Exhausted)
        /\ List.length outs = List.length raw
        /\ Forall (fun out => constant_column out k v) outs).
Proof.
  intros Hp Hraw Hset Hkey Hschema Hmissing t injected ev specialized mem w'.
  assert (Hexec : Execute w =
    (Ok (stages_of t raw),
     {| this := with_projector_ injected (with_filter_ (Some specialized) t);
        calls := calls w ++ [CallExecute (task_ t);
                             CallAssume (filter (options_ t)) (Some p);
                             CallSetDefaultValuesFromKeys p] |})).
  { rewrite Execute_eq. cbv zeta. subst t injected specialized.
    rewrite Hraw, Hp. cbn [Assume_ptr].
    destruct (fst (SetDefaultValuesFromKeys p (projector_ (this w)))) as [u|s];
      [reflexivity|discriminate]. }
  destruct (SetDefaultValuesFromKeys_sets p (projector_ t) k Hset Hkey Hschema)
    as [Hschema' Hdflt]. fold injected in Hschema', Hdflt.
  assert (Hspec : Assume_ptr (filter (options_ t)) (partition_ t) = specialized).
  { subst t specialized. rewrite Hp. reflexivity. }
  assert (Hpull : forall n,
            fst (fst (pull n (stages_of t raw) w')) =
              map (item_result ev specialized mem injected) (firstn n raw)
                ++ repeat (Ok None) (n - List.length raw)).
  { intros n. subst w'. rewrite Hexec. cbn [snd].
    unfold stages_of, ProjectedIterator, FilteredIterator.
    rewrite pull_pipeline, Hspec. reflexivity. }
  assert (Hitem : forall b out,
            In (Ok b) raw ->
            item_result ev specialized mem injected (Ok b) = Ok (Some out) ->
            constant_column out k v).
  { intros b out Hb Hres.
    eapply item_result_constant_column; [exact Hres|exact Hschema'|exact Hdflt|].
    rewrite forallb_forall in Hmissing. specialize (Hmissing (Ok b) Hb).
    cbn in Hmissing. now destruct (has_column b k). }
  split; [exact Hexec|].
  split; [subst w'; rewrite Hexec; exact Hdflt|].
  split; [exact Hpull|].
  split.
  - intros n out Hin. rewrite Hpull in Hin.
    apply in_app_or in Hin. destruct Hin as [Hin|Hin].
    2:{ apply repeat_spec in Hin. discriminate. }
    apply in_map_iff in Hin. destruct Hin as (item & Hres & Hfirst).
    destruct item as [b|s]; [|discriminate].
    apply (Hitem b out); [|exact Hres].
    rewrite <- (firstn_skipn n raw). apply in_or_app. now left.
  - intros batches outs Hbatches Hall. split; [|split].
    + subst w'. rewrite Hexec. cbn [snd]. rewrite Hbatches, length_map.
      unfold stages_of, ProjectedIterator, FilteredIterator. rewrite Hspec.
      apply visit_pipeline_all. exact Hall.
    + rewrite Hbatches, length_map. symmetry. eapply Forall2_length. exact Hall.
    + assert (Hin : forall b, In b batches -> In (Ok b) raw).
      { intros b Hb. rewrite Hbatches. now apply in_map. }
      clear Hbatches. induction Hall as [|b out batches outs Hb _ IH]; constructor.
      * apply (Hitem b out); [apply Hin; now left|exact Hb].
      * apply IH. intros b' Hb'. apply Hin. now right.
Qed.

End PartitionDefaults.

(** ** The claims on sample data *)

Section OnSamples.
Import Sample.
#[local] Existing Instance Model.collaborators.
#[local] Open Scope string_scope.

(** C1 on the task over [batch1; batch2] with partition [region = "west"]:
    a sequence is returned, the stored predicate is the options' filter
    with the partition assumed, and one specialization was made after two
    pulls. *)
Lemma Execute_filters_before_projecting_witness :
  ScanTask_Execute (task_ (this (world_of decorated_west))) = Ok [Ok batch1; Ok batch2]
  /\ filter_ (this (snd (Execute (world_of decorated_west)))) =
       Some (Model.and_ x_is_1 (Model.scalar true))
  /\ fst (Execute (world_of decorated_west)) =
       Ok (ProjectRecordBatch
             (FilterRecordBatch [Ok batch1; Ok batch2] tt
                (Model.and_ x_is_1 (Model.scalar true)) tt)
             AddrOf_projector_ tt)
  /\ count_events is_CallAssume
       (calls (snd (pull 2 (stages_of decorated_west [Ok batch1; Ok batch2])
                      (snd (Execute (world_of decorated_west)))))) = 1.
Proof.
  split; [reflexivity|].
  pose proof (@Execute_filters_before_projecting Model.collaborators
                (world_of decorated_west) [Ok batch1; Ok batch2] eq_refl) as H.
  split; [exact (proj1 (proj2 H))|].
  split; [exact (proj1 (proj2 (proj2 H)))|].
  exact (proj2 (proj2 (proj2 (proj2 (proj2 H)) 2))).
Defined.

(** C2 on [batch1] and the predicate [x = 1]. *)
Lemma FilterRecordBatch_keeps_selected_rows_witness :
  Next ([Ok batch1] : RecordBatchIterator) (world_of decorated_west) =
    (Ok (Some batch1), [], world_of decorated_west)
  /\ Evaluate tt x_is_1 batch1 tt = Ok [true; false; true]
  /\ forall out : Model.Batch,
       fst (fst (Next (filter_stage [Ok batch1]) (world_of decorated_west))) =
         Ok (Some out) ->
       Model.batch_rows out = take_mask [true; false; true] (Model.batch_rows batch1).
Proof.
  split; [reflexivity|]. split; [reflexivity|].
  exact (proj2 (@FilterRecordBatch_keeps_selected_rows Model.collaborators
                  (@Build_EvaluatorContract Model.collaborators
                     (list Model.Scalar) Model.batch_rows (fun mask => mask)
                     (fun _ selection batch out H =>
                        @ModelFacts.filter_batch_rows selection batch out H))
                  RecordBatchIterator _ [Ok batch1] [] batch1
                  (world_of decorated_west) (world_of decorated_west)
                  tt x_is_1 tt [true; false; true] eq_refl eq_refl)).
Defined.

(** C3 refuted: one projection stage over two batches, built for the task
    with partition [region = "west"] after its [Execute()].  No copy of the
    projector has been made when the stage is built; both batches are
    projected successfully, and the consumer that visits the sequence to its
    end has made two copies of the projector, not one. *)
Lemma ProjectRecordBatch_two_batches_two_copies :
  let w := snd (Execute (world_of decorated_west)) in
  let stage := project_stage [Ok batch1; Ok batch2] in
  count_events is_CopyProjector (calls w) = 0
  /\ fst (fst (visit 3 stage w)) =
     ([{| Model.columns := [("x", [Model.Int 1; Model.Int 2; Model.Int 1]);
                            ("region", [Model.Str "west"; Model.Str "west";
                                        Model.Str "west"])];
          Model.num_rows := 3 |};
       {| Model.columns := [("x", [Model.Int 2; Model.Int 1]);
                            ("region", [Model.Str "west"; Model.Str "west"])];
          Model.num_rows := 2 |}],
      Exhausted)
  /\ count_events is_CopyProjector (calls (snd (visit 3 stage w))) = 2
  /\ count_events is_CopyProjector (calls (snd (pull 2 stage w))) = 2
  /\ count_events is_CopyProjector (calls (snd (pull 2 stage w))) <> 1.
Proof. repeat split; discriminate. Qed.

(** C4 on [F1; F2] with 2 and 3 raw tasks: 5 decorated tasks, in order; and
    when the 2 tasks of [F1] have been yielded only [F1] has been scanned. *)
Lemma GetScanTaskIterator_preserves_order_witness :
  Forall (fun ft => Scan (fst ft) sample_options sample_context = Ok (map Ok (snd ft)))
    [(F1, [t1; t2]); (F2, [t3; t4; t5])]
  /\ FlattenIterator_collect 11
       (GetScanTaskIterator [Ok F1; Ok F2] sample_options sample_context) [] =
     Some ([Ok (FilterAndProjectScanTask_new t1 (Some west));
            Ok (FilterAndProjectScanTask_new t2 (Some west));
            Ok (FilterAndProjectScanTask_new t3 (Some east));
            Ok (FilterAndProjectScanTask_new t4 (Some east));
            Ok (FilterAndProjectScanTask_new t5 (Some east))],
           [F1; F2])
  /\ FlattenIterator_pull 11 2
       (GetScanTaskIterator [Ok F1; Ok F2] sample_options sample_context) [] =
     Some ([Ok (Some (FilterAndProjectScanTask_new t1 (Some west)));
            Ok (Some (FilterAndProjectScanTask_new t2 (Some west)))],
           flatten_state sample_options sample_context (Some (Some west, [])) [Ok F2],
           [F1]).
Proof.
  assert (Hscan : Forall (fun ft => Scan (fst ft) sample_options sample_context =
                                    Ok (map Ok (snd ft)))
                    [(F1, [t1; t2]); (F2, [t3; t4; t5])]).
  { repeat constructor. }
  assert (Hfuel : 2 * List.length [(F1, [t1; t2]); (F2, [t3; t4; t5])]
                  + List.length (flat_map snd [(F1, [t1; t2]); (F2, [t3; t4; t5])]) + 2
                  <= 11).
  { cbn. lia. }
  pose proof (@GetScanTaskIterator_preserves_order Model.collaborators
                [(F1, [t1; t2]); (F2, [t3; t4; t5])] sample_options sample_context 11
                Hscan Hfuel) as [Hall Hprefix].
  split; [exact Hscan|]. split; [exact Hall|].
  apply (Hprefix [] F1 [t1; t2] [(F2, [t3; t4; t5])] 2 eq_refl).
  cbn. lia.
Defined.

(** C5 on [F_bad; F2]: one error, then the three tasks of [F2]. *)
Lemma GetScanTaskIterator_isolates_scan_failure_witness :
  Scan F_bad sample_options sample_context = Err io_error
  /\ Scan F2 sample_options sample_context = Ok [Ok t3; Ok t4; Ok t5]
  /\ FlattenIterator_collect 10
       (GetScanTaskIterator [Ok F_bad; Ok F2] sample_options sample_context) [] =
     Some ([Err io_error;
            Ok (FilterAndProjectScanTask_new t3 (Some east));
            Ok (FilterAndProjectScanTask_new t4 (Some east));
            Ok (FilterAndProjectScanTask_new t5 (Some east))],
           [F_bad; F2]).
Proof.
  split; [reflexivity|]. split; [reflexivity|].
  apply (@GetScanTaskIterator_isolates_scan_failure Model.collaborators
           [] [] [] F_bad F2 io_error [Ok t3; Ok t4; Ok t5]
           sample_options sample_context 10 eq_refl eq_refl).
  cbn. lia.
Defined.

(** C6 on the task with partition [region = "west"] over two batches
    without a [region] column: the consumer gets two batches, the selected
    rows of each with a [region] column that is ["west"] in every row, and
    then the end. *)
Lemma Execute_injects_partition_defaults_witness :
  partition_ (this (world_of decorated_west)) = Some west
  /\ Model.binding west "region" = Some (Model.Str "west")
  /\ Model.has batch1 "region" = false
  /\ Model.has batch2 "region" = false
  /\ Model.default_of
       (projector_ (this (snd (Execute (world_of decorated_west))))) "region" =
     Some (Model.Str "west")
  /\ fst (fst (visit 3 (stages_of decorated_west [Ok batch1; Ok batch2])
                 (snd (Execute (world_of decorated_west))))) =
     ([{| Model.columns := [("x", [Model.Int 1; Model.Int 1]);
                            ("region", [Model.Str "west"; Model.Str "west"])];
          Model.num_rows := 2 |};
       {| Model.columns := [("x", [Model.Int 1]); ("region", [Model.Str "west"])];
          Model.num_rows := 1 |}],
      Exhausted).
Proof.
  split; [reflexivity|]. split; [reflexivity|].
  split; [reflexivity|]. split; [reflexivity|].
  pose proof (@Execute_injects_partition_defaults Model.collaborators
                (@Build_PartitionDefaultsContract Model.collaborators
                   string Model.Scalar Model.binding Model.targets Model.default_of
                   Model.has Model.constant
                   ModelFacts.set_defaults_from_keys_sets
                   ModelFacts.filter_batch_has
                   ModelFacts.project_constant)
                (world_of decorated_west) west [Ok batch1; Ok batch2]
                "region" (Model.Str "west")
                eq_refl eq_refl eq_refl eq_refl eq_refl eq_refl) as H.
  split; [exact (proj1 (proj2 H))|].
  refine (proj1 (proj2 (proj2 (proj2 (proj2 H))) [batch1; batch2] _ eq_refl _)).
  repeat constructor.
Defined.

(** C7 on the task without partition. *)
Lemma Execute_without_partition_witness :
  partition_ (this (world_of decorated_unpartitioned)) = None
  /\ filter_ (this (snd (Execute (world_of decorated_unpartitioned)))) =
       Some (Model.and_ x_is_1 west)
  /\ projector_ (this (snd (Execute (world_of decorated_unpartitioned)))) = sample_projector.
Proof.
  split; [reflexivity|].
  pose proof (@Execute_without_partition Model.collaborators
                (world_of decorated_unpartitioned) [Ok batch1; Ok batch2]
                eq_refl eq_refl) as H.
  exact (conj (proj1 (proj2 H)) (proj1 (proj2 (proj2 H)))).
Defined.

(** C9 on the task with partition [region = "west"], two batches pulled:
    the template has no default and the task's projector has the scratch
    state it had, although each [Project] call grew the scratch state of the
    projector it ran on. *)
Lemma projection_writes_only_copies_witness :
  fst (Execute (world_of decorated_west)) =
    Ok (stages_of (this (world_of decorated_west)) [Ok batch1; Ok batch2])
  /\ Model.scratch (snd (Model.project (projector_ (this (snd (Execute (world_of decorated_west)))))
                          batch1 tt)) = 3
  /\ this (snd (pull 2 (stages_of (this (world_of decorated_west)) [Ok batch1; Ok batch2])
                  (snd (Execute (world_of decorated_west))))) =
     this (snd (Execute (world_of decorated_west))).
Proof.
  split; [reflexivity|]. split; [reflexivity|].
  exact (proj1 (proj2 (@projection_writes_only_copies Model.collaborators
                         (world_of decorated_west) 2) _ eq_refl)).
Defined.

(** C10 on [F1], two raw tasks: both decorated tasks carry its partition. *)
Lemma wrap_scan_task_copies_partition_witness :
  Scan F1 sample_options sample_context = Ok [Ok t1; Ok t2]
  /\ exists child : WrappedIterator,
       call (mkfn_closure sample_options sample_context) F1 [] =
         (Ok child, mkfn_closure sample_options sample_context, [F1])
       /\ forall d : FilterAndProjectScanTask,
            In (Ok (Some d)) (fst (fst (pull 2 child ([F1] : ScanLog)))) ->
            partition_ d = Some west.
Proof.
  split; [reflexivity|].
  destruct (@wrap_scan_task_copies_partition Model.collaborators
              (mkfn_closure sample_options sample_context) F1 [Ok t1; Ok t2] [] eq_refl)
    as (child & Hcall & Hpull).
  exists child. split; [exact Hcall|].
  intros d Hin. exact (proj2 (proj2 (Hpull 2)) d Hin).
Defined.

End OnSamples.

(** * Further properties of the code *)

(** ** Failures of [Execute()] and what it leaves behind *)

Section ExecuteOutcomes.
Context {C : Collaborators}.

(** X1.  When the wrapped task fails to start, [Execute()] returns its
    failure at once: the task object is as it was ([filter_] is not assigned,
    [projector_] is not written) and the only call made is the wrapped
    task's [Execute]. *)
Theorem Execute_start_failure_leaves_task (w : World) (s : Status) :
  ScanTask_Execute (task_ (this w)) = Err s ->
  fst (Execute w) = Err s
  /\ this (snd (Execute w)) = this w
  /\ calls (snd (Execute w)) = calls w ++ [CallExecute (task_ (this w))].
Proof.
  intros Hfail. rewrite Execute_eq. cbv zeta. rewrite Hfail. repeat split.
Qed.

(** X2.  When the wrapped task starts and [SetDefaultValuesFromKeys] fails,
    [Execute()] returns that failure and no sequence, but its effects stay:
    [filter_] holds the specialized predicate and [projector_] is as the
    failed call left it. *)
Theorem Execute_defaults_failure_keeps_effects (w : World) (raw : RecordBatchIterator)
    (p : Expression) (s : Status) :
  ScanTask_Execute (task_ (this w)) = Ok raw ->
  partition_ (this w) = Some p ->
  fst (SetDefaultValuesFromKeys p (projector_ (this w))) = Err s ->
  fst (Execute w) = Err s
  /\ filter_ (this (snd (Execute w))) = Some (Assume (filter (options_ (this w))) p)
  /\ projector_ (this (snd (Execute w))) =
       snd (SetDefaultValuesFromKeys p (projector_ (this w)))
  /\ calls (snd (Execute w)) =
       calls w ++ [CallExecute (task_ (this w));
                   CallAssume (filter (options_ (this w))) (Some p);
                   CallSetDefaultValuesFromKeys p].
Proof.
  intros Hraw Hp Hfail. rewrite Execute_eq. cbv zeta. rewrite Hraw, Hp, Hfail.
  cbn [fst snd this calls with_projector_ with_filter_ filter_ projector_ Assume_ptr].
  repeat split.
Qed.

(** X3.  Whatever its outcome, [Execute()] writes no member of the task but
    [filter_] and [projector_]: the wrapped task, the partition predicate,
    the options and the context are as before, and the calls made before
    remain the beginning of the log. *)
Theorem Execute_writes_only_filter_and_projector (w : World) :
  let t' := this (snd (Execute w)) in
  task_ t' = task_ (this w)
  /\ partition_ t' = partition_ (this w)
  /\ options_ t' = options_ (this w)
  /\ context_ t' = context_ (this w)
  /\ exists made, calls (snd (Execute w)) = calls w ++ made.
Proof.
  intros t'. subst t'. rewrite Execute_eq. cbv zeta.
  destruct (ScanTask_Execute (task_ (this w))) as [raw|s].
  - destruct (partition_ (this w)) as [p|] eqn:Hp; cbn [snd this calls];
      unfold with_projector_, with_filter_;
      cbn [task_ partition_ options_ context_]; rewrite ?Hp;
      repeat split; eauto.
  - cbn [snd add_calls this calls]. repeat split; eauto.
Qed.

(** X4.  A task decorated by the constructor takes all it uses from the
    task it wraps.  Executed, it filters with the wrapped task's options'
    filter, specialized by the partition given to the constructor, through
    the wrapped task's evaluator and pool; the defaults are set on the
    task's own copy of the projector, and the projector in the options keeps
    its value. *)
Theorem decorated_task_uses_wrapped_configuration (task : ScanTask)
    (partition : ExpressionPtr) (raw : RecordBatchIterator) (log : list Event) :
  ScanTask_Execute task = Ok raw ->
  let w := {| this := FilterAndProjectScanTask_new task partition; calls := log |} in
  let specialized := Assume_ptr (filter (options task)) partition in
  filter_ (this (snd (Execute w))) = Some specialized
  /\ (forall it, fst (Execute w) = Ok it ->
        it = ProjectRecordBatch
               (FilterRecordBatch raw (evaluator (options task)) specialized
                  (pool (context task)))
               AddrOf_projector_ (pool (context task)))
  /\ projector_ (this (snd (Execute w))) =
       match partition with
       | None => projector (options task)
       | Some p => snd (SetDefaultValuesFromKeys p (projector (options task)))
       end
  /\ projector (options_ (this (snd (Execute w)))) = projector (options task).
Proof.
  intros Hraw w specialized. subst w specialized.
  rewrite Execute_eq. cbv zeta.
  cbn [this FilterAndProjectScanTask_new task_ partition_ options_ context_ projector_].
  rewrite Hraw. unfold stages_of.
  cbn [FilterAndProjectScanTask_new task_ partition_ options_ context_ projector_].
  destruct partition as [p|].
  - cbn [fst snd this with_projector_ with_filter_ filter_ projector_ options_].
    split; [reflexivity|]. split; [|split; reflexivity].
    intros it. destruct (fst (SetDefaultValuesFromKeys p (projector (options task))));
      congruence.
  - cbn [fst snd this with_filter_ filter_ projector_ options_].
    split; [reflexivity|]. split; [|split; reflexivity].
    intros it. congruence.
Qed.

End ExecuteOutcomes.

(** ** The stages over a sequence *)

Section StageOutcomes.
Context {C : Collaborators}.

Lemma FilterRecordBatch_Next_cons (item : Result RecordBatch) (raw : RecordBatchIterator)
    (ev : ExpressionEvaluator) (predicate : Expression) (mem : MemoryPool) (w : World) :
  Next (FilterRecordBatch (item :: raw) ev predicate mem) w =
    (filter_result ev predicate mem item,
     FilterRecordBatch raw ev predicate mem,
     add_calls (filter_events ev predicate mem item) w).
Proof.
  destruct item as [b|s]; cbn [filter_result filter_events].
  - pose proof (FilterRecordBatch_Next_element _ (Ok b :: raw : RecordBatchIterator) w
                  ev predicate mem (VectorIterator_Next_ok b raw w)) as Hf.
    etransitivity; [exact Hf|].
    destruct (Evaluate ev predicate b mem) as [selection|s].
    + rewrite !tick_add_calls, add_calls_app.
      destruct (Filter ev selection b); reflexivity.
    + rewrite tick_add_calls. reflexivity.
  - rewrite add_calls_nil.
    unfold FilterRecordBatch, MakeMaybeMapIterator.
    apply MapIterator_Next_failed_pull. apply VectorIterator_Next_err.
Qed.

Lemma filter_events_no_projector (ev : ExpressionEvaluator) (predicate : Expression)
    (mem : MemoryPool) (item : Result RecordBatch) :
  count_events is_projector_event (filter_events ev predicate mem item) = 0.
Proof.
  destruct item as [b|s]; [|reflexivity]. cbn [filter_events].
  destruct (Evaluate ev predicate b mem); reflexivity.
Qed.

(** Visiting a filter stage whose first batches all filter successfully. *)
Lemma visit_FilterRecordBatch_prefix (ev : ExpressionEvaluator) (predicate : Expression)
    (mem : MemoryPool) (before outs : list RecordBatch) :
  Forall2 (fun b out => filter_result ev predicate mem (Ok b) = Ok (Some out)) before outs ->
  forall (rest : RecordBatchIterator) (n : nat) (w : World),
    visit (List.length before + n)
      (FilterRecordBatch (map Ok before ++ rest) ev predicate mem) w =
      match visit n (FilterRecordBatch rest ev predicate mem)
              (add_calls (flat_map (filter_events ev predicate mem) (map Ok before)) w) with
      | (xs, outcome, it', w') => (outs ++ xs, outcome, it', w')
      end.
Proof.
  unfold RecordBatchIterator, VectorIterator.
  induction 1 as [|b out before outs Hb _ IH]; intros rest n w.
  - cbn [List.length Nat.add map app flat_map]. rewrite add_calls_nil.
    destruct (visit n (FilterRecordBatch rest ev predicate mem) w) as [[[xs o] it'] w'].
    reflexivity.
  - cbn [List.length Nat.add map app flat_map].
    rewrite visit_succ.
    pose proof (FilterRecordBatch_Next_cons (Ok b) (map Ok before ++ rest)
                  ev predicate mem w) as Hnext.
    rewrite Hb in Hnext. unfold RecordBatchIterator, VectorIterator in Hnext.
    rewrite Hnext, IH, add_calls_app.
    destruct (visit n (FilterRecordBatch rest ev predicate mem)
                (add_calls (filter_events ev predicate mem (Ok b)
                              ++ flat_map (filter_events ev predicate mem) (map Ok before)) w))
      as [[[xs o] it'] w'].
    reflexivity.
Qed.


(** X5.  When every batch of the input filters successfully, the consumer
    gets exactly one filtered batch per input batch, in order, also for a
    batch no row of which is selected, and then the end; the stage leaves
    the task object as it is and makes no call that reaches a projector. *)
Theorem FilterRecordBatch_one_batch_per_batch (batches outs : list RecordBatch)
    (ev : ExpressionEvaluator) (predicate : Expression) (mem : MemoryPool) (w : World) :
  Forall2 (fun b out => filter_result ev predicate mem (Ok b) = Ok (Some out)) batches outs ->
  let after :=
    visit (S (List.length batches)) (FilterRecordBatch (map Ok batches) ev predicate mem) w in
  fst (fst (fst after)) = outs
  /\ snd (fst (fst after)) = Exhausted
  /\ List.length outs = List.length batches
  /\ this (snd after) = this w
  /\ calls (snd after) =
       calls w ++ flat_map (filter_events ev predicate mem) (map Ok batches)
  /\ count_events is_projector_event (calls (snd after)) =
       count_events is_projector_event (calls w).
Proof.
  intros Hall after. subst after.
  pose proof (@visit_FilterRecordBatch_prefix ev predicate mem batches outs Hall [] 1 w)
    as Hvisit.
  rewrite app_nil_r, Nat.add_1_r in Hvisit.
  assert (Hend : forall w1 : World,
            visit 1 (FilterRecordBatch (@nil (Result RecordBatch)) ev predicate mem) w1 =
              ([], Exhausted, FilterRecordBatch [] ev predicate mem, w1)).
  { intros w1. rewrite visit_succ. unfold FilterRecordBatch, MakeMaybeMapIterator.
    erewrite MapIterator_Next_end by apply VectorIterator_Next_nil. reflexivity. }
  rewrite Hend in Hvisit. rewrite Hvisit.
  cbn [fst snd add_calls this calls]. rewrite app_nil_r.
  repeat split.
  - symmetry. eapply Forall2_length. exact Hall.
  - rewrite count_events_app, count_events_flat_map_zero;
      [lia|intros a; apply filter_events_no_projector].
Qed.

(** X6.  The projection stage reads the projector through its pointer when
    a batch is pulled, not when the stage is built: after [projector_] is
    replaced, a stage pointing to [&projector_] projects with the new value,
    while a stage pointing to the options' projector is not affected. *)
Theorem ProjectRecordBatch_reads_projector_when_pulled (batch : RecordBatch)
    (raw : RecordBatchIterator) (mem : MemoryPool) (p : RecordBatchProjector) (w : World) :
  Next (ProjectRecordBatch (Ok batch :: raw) AddrOf_projector_ mem) (set_projector_ p w) =
    (lift_result (fst (Project p batch mem)),
     ProjectRecordBatch raw AddrOf_projector_ mem,
     add_calls [CopyProjector p; CallProject p batch] (set_projector_ p w))
  /\ Next (ProjectRecordBatch (Ok batch :: raw) AddrOf_options_projector mem)
       (set_projector_ p w) =
     (lift_result (fst (Project (projector (options_ (this w))) batch mem)),
      ProjectRecordBatch raw AddrOf_options_projector mem,
      add_calls [CopyProjector (projector (options_ (this w)));
                 CallProject (projector (options_ (this w))) batch]
        (set_projector_ p w)).
Proof.
  split; rewrite ProjectRecordBatch_Next_cons;
    cbn [deref set_projector_ this projector_ options_ project_result project_events];
    unfold lift_result;
    match goal with
    | |- context [fst (Project ?q batch mem)] => destruct (fst (Project q batch mem))
    end; reflexivity.
Qed.

(** X7.  When the input yields a batch whose projection fails, the
    projection stage yields that failure to the consumer, whose visit of the
    sequence ends there: one copy was made and [Project] called once, on the
    copy; the task object, with its [projector_], is as the input left it,
    and the input stands right after the failing batch. *)
Theorem ProjectRecordBatch_yields_projection_failure
    (It : Type) (HI : Iterator World It RecordBatch)
    (it it' : It) (in_ : RecordBatch) (w w' : World)
    (ptr : ProjectorPtr) (mem : MemoryPool) (s : Status) (n : nat) :
  Next it w = (Ok (Some in_), it', w') ->
  fst (Project (deref ptr w') in_ mem) = Err s ->
  visit (S n) (ProjectRecordBatch it ptr mem) w =
    ([], Failed s, ProjectRecordBatch it' ptr mem,
     tick (CallProject (deref ptr w') in_) (tick (CopyProjector (deref ptr w')) w'))
  /\ this (snd (visit (S n) (ProjectRecordBatch it ptr mem) w)) = this w'.
Proof.
  intros Hnext Hfail.
  assert (Hvisit : visit (S n) (ProjectRecordBatch it ptr mem) w =
            ([], Failed s, ProjectRecordBatch it' ptr mem,
             tick (CallProject (deref ptr w') in_)
               (tick (CopyProjector (deref ptr w')) w'))).
  { rewrite visit_succ.
    rewrite (ProjectRecordBatch_Next_element _ it w ptr mem Hnext).
    cbn [project_result]. rewrite Hfail. reflexivity. }
  split; [exact Hvisit|]. rewrite Hvisit. reflexivity.
Qed.

(** X8.  Through the sequence [Execute()] returns, a failed pull of the raw
    sequence reaches the consumer at its position and as it is; and once
    the raw sequence is used up every further pull returns the end marker
    and makes no call. *)
Theorem pipeline_passes_failures_and_end (w : World) (raw : RecordBatchIterator)
    (it : ProjectedIterator) (n : nat) :
  ScanTask_Execute (task_ (this w)) = Ok raw ->
  fst (Execute w) = Ok it ->
  let w' := snd (Execute w) in
  (forall k s, k < n -> nth_error raw k = Some (Err s) ->
     nth_error (fst (fst (pull n it w'))) k = Some (Err s))
  /\ (List.length raw <= n ->
      skipn (List.length raw) (fst (fst (pull n it w'))) =
        repeat (Ok None) (n - List.length raw)
      /\ snd (pull n it w') = snd (pull (List.length raw) it w')).
Proof.
  intros Hraw Hit w'.
  assert (Hst : it = stages_of (this w) raw).
  { revert Hit. rewrite Execute_eq. cbv zeta. rewrite Hraw.
    destruct (partition_ (this w)) as [p|]; cbn [fst].
    - destruct (fst (SetDefaultValuesFromKeys p (projector_ (this w)))); congruence.
    - congruence. }
  subst it. unfold stages_of, ProjectedIterator, FilteredIterator.
  rewrite !pull_pipeline. cbn [fst snd]. split.
  - intros k s Hk Hnth.
    assert (Hlt : k < List.length (firstn n raw)).
    { rewrite length_firstn.
      assert (k < List.length raw) by (apply nth_error_Some; congruence). lia. }
    rewrite nth_error_app1 by (now rewrite length_map).
    rewrite nth_error_map, nth_error_firstn.
    destruct (Nat.ltb_spec k n); [|lia]. rewrite Hnth. reflexivity.
  - intros Hlen. rewrite firstn_all2 by exact Hlen. rewrite firstn_all.
    split; [|reflexivity].
    rewrite skipn_app, length_map, Nat.sub_diag, skipn_all2 by (rewrite length_map; lia).
    reflexivity.
Qed.

End StageOutcomes.

(** ** The flattened sequence of any fragment sequence *)

Section TaskOutcomes.
Context {C : Collaborators}.

Variable options : ScanOptions.
Variable context : ScanContext.

(** Pulling past the end from any state of the flattened iterator. *)
Lemma pull_flatten_past_end (frs : FragmentIterator) :
  forall child (log : ScanLog) (fuel k : nat),
    flatten_depth child frs <= fuel ->
    FlattenIterator_pull fuel
      (List.length (pending child ++ flat_map (contribution options context) frs) + S k)
      (flatten_state options context child frs) log =
      Some (map lift_result (pending child ++ flat_map (contribution options context) frs)
              ++ repeat (Ok None) (S k),
            flatten_state options context None [],
            log ++ flat_map scanned frs).
Proof.
  assert (Hend : forall k (log : ScanLog) (fuel : nat), 1 <= fuel ->
            FlattenIterator_pull fuel k (flatten_state options context None []) log =
              Some (repeat (Ok None) k, flatten_state options context None [], log)).
  { induction k as [|k IHk]; intros log fuel Hfuel; [reflexivity|].
    destruct fuel as [|fuel]; [lia|].
    rewrite FlattenIterator_pull_succ, (@flatten_Next_parent_nil _ options context), IHk by lia.
    reflexivity. }
  induction frs as [|f frs IH].
  - intros [[partition ts]|] log fuel k Hfuel;
      unfold flatten_depth in Hfuel; cbn [List.length] in Hfuel;
      cbn [flat_map pending]; rewrite ?app_nil_r.
    + revert log. induction ts as [|r ts IHt]; intros log.
      * cbn [map List.length Nat.add app].
        erewrite pull_same_Next
          by (apply flatten_Next_child_nil_enough; unfold flatten_depth;
              cbn [List.length]; lia).
        rewrite Hend by lia. reflexivity.
      * destruct fuel as [|fuel]; [lia|].
        cbn [map List.length Nat.add app].
        rewrite FlattenIterator_pull_succ, (@flatten_Next_child_cons _ options context), IHt.
        reflexivity.
    + cbn [map List.length Nat.add app]. rewrite Hend by lia. reflexivity.
  - assert (Hnone : forall (log : ScanLog) (fuel k : nat),
              2 * S (List.length frs) + 1 <= fuel ->
              FlattenIterator_pull fuel
                (List.length (flat_map (contribution options context) (f :: frs)) + S k)
                (flatten_state options context None (f :: frs)) log =
              Some (map lift_result (flat_map (contribution options context) (f :: frs))
                      ++ repeat (Ok None) (S k),
                    flatten_state options context None [],
                    log ++ flat_map scanned (f :: frs))).
    { intros log fuel k Hfuel.
      assert (Hd : forall child, flatten_depth child frs <= fuel).
      { intros child. unfold flatten_depth. destruct child; lia. }
      cbn [flat_map]. rewrite length_app.
      destruct f as [fragment|s]; cbn [contribution scanned].
      - destruct (Scan fragment options context) as [ts|s] eqn:Hts.
        + rewrite Nat.add_succ_r.
          erewrite pull_same_Next.
          2:{ apply flatten_Next_parent_cons_enough; [|exact Hts].
              unfold flatten_depth. cbn [List.length]. lia. }
          rewrite <- Nat.add_succ_r, <- length_app.
          change (map (wrap_result (partition_expression fragment)) ts)
            with (pending (Some (partition_expression fragment, ts))).
          rewrite IH by apply Hd. rewrite <- !app_assoc. reflexivity.
        + destruct fuel as [|fuel]; [lia|].
          cbn [List.length Nat.add app].
          rewrite FlattenIterator_pull_succ, (@flatten_Next_parent_cons _ options context), Hts.
          change (flat_map (contribution options context) frs)
            with (pending None ++ flat_map (contribution options context) frs).
          rewrite IH by apply Hd. cbn [pending app map lift_result].
          rewrite <- !app_assoc. reflexivity.
      - destruct fuel as [|fuel]; [lia|].
        cbn [List.length Nat.add app].
        rewrite FlattenIterator_pull_succ, (@flatten_Next_parent_cons _ options context).
        change (flat_map (contribution options context) frs)
          with (pending None ++ flat_map (contribution options context) frs).
        rewrite IH by apply Hd. reflexivity. }
    intros [[partition ts]|] log fuel k Hfuel;
      unfold flatten_depth in Hfuel; cbn [List.length] in Hfuel; cbn [pending].
    + revert log. induction ts as [|r ts IHt]; intros log.
      * cbn [map app]. rewrite Nat.add_succ_r.
        erewrite pull_same_Next
          by (apply flatten_Next_child_nil_enough; unfold flatten_depth;
              cbn [List.length]; lia).
        rewrite <- Nat.add_succ_r. apply Hnone. lia.
      * destruct fuel as [|fuel]; [lia|].
        cbn [map List.length Nat.add app].
        rewrite FlattenIterator_pull_succ, (@flatten_Next_child_cons _ options context), IHt.
        reflexivity.
    + apply Hnone. lia.
Qed.

End TaskOutcomes.

Section TaskOutcomeClaims.
Context {C : Collaborators}.

(** X9.  For any fragment sequence, the flattened sequence is the
    concatenation, in order, of what each element contributes: a failed pull
    of the fragment sequence, that one error, with no scan; a fragment whose
    scan fails, that one error; a fragment whose scan succeeds, its task
    sequence with every task wrapped and every failed pull left in place,
    nothing if it has no task.  [Scan] is called once on each fragment, in
    order. *)
Theorem GetScanTaskIterator_flattens_any_sequence (frs : FragmentIterator)
    (options : ScanOptions) (context : ScanContext) (log : ScanLog) (fuel : nat) :
  2 * List.length frs + List.length (flat_map (contribution options context) frs) + 2 <= fuel ->
  FlattenIterator_collect fuel (GetScanTaskIterator frs options context) log =
    Some (flat_map (contribution options context) frs, log ++ flat_map scanned frs).
Proof. apply GetScanTaskIterator_collect. Qed.

Lemma contribution_decorated (options : ScanOptions) (context : ScanContext)
    (frs : FragmentIterator) (d : FilterAndProjectScanTask) :
  In (Ok d) (flat_map (contribution options context) frs) ->
  exists fragment tasks,
    In (Ok fragment) frs
    /\ Scan fragment options context = Ok tasks
    /\ In (Ok (task_ d)) tasks
    /\ d = FilterAndProjectScanTask_new (task_ d) (partition_expression fragment).
Proof.
  intros Hin. apply in_flat_map in Hin. destruct Hin as ([fragment|s] & Hfr & Hd).
  - cbn [contribution] in Hd.
    destruct (Scan fragment options context) as [tasks|s] eqn:Hscan.
    + apply in_map_iff in Hd. destruct Hd as ([task|s] & Heq & Htask); [|discriminate].
      cbn [wrap_result] in Heq. injection Heq as <-.
      exists fragment, tasks. cbn [FilterAndProjectScanTask_new task_]. auto.
    + destruct Hd as [Hd|[]]. discriminate.
  - destruct Hd as [Hd|[]]. discriminate.
Qed.

(** X10.  Every task the flattened sequence yields is unexecuted and owns
    its projector: [filter_] is null, its options and context are those of
    the raw task it wraps, not those given to [GetScanTaskIterator], its
    [projector_] is a copy of the projector in these options, and its
    partition is that of the fragment whose scan yielded the raw task. *)
Theorem GetScanTaskIterator_yields_fresh_decorated_tasks (frs : FragmentIterator)
    (given_options : ScanOptions) (given_context : ScanContext)
    (log : ScanLog) (fuel : nat)
    (yielded : list (Result FilterAndProjectScanTask)) (log' : ScanLog) :
  2 * List.length frs
    + List.length (flat_map (contribution given_options given_context) frs) + 2 <= fuel ->
  FlattenIterator_collect fuel (GetScanTaskIterator frs given_options given_context) log =
    Some (yielded, log') ->
  forall d, In (Ok d) yielded ->
    filter_ d = None
    /\ options_ d = options (task_ d)
    /\ context_ d = context (task_ d)
    /\ projector_ d = projector (options (task_ d))
    /\ exists fragment tasks,
         In (Ok fragment) frs
         /\ Scan fragment given_options given_context = Ok tasks
         /\ In (Ok (task_ d)) tasks
         /\ partition_ d = partition_expression fragment.
Proof.
  intros Hfuel Hcollect d Hin.
  rewrite (GetScanTaskIterator_collect given_options given_context frs log Hfuel)
    in Hcollect.
  injection Hcollect as <- _.
  destruct (contribution_decorated given_options given_context frs d Hin)
    as (fragment & tasks & Hfr & Hscan & Htask & Hd).
  rewrite Hd. cbn [FilterAndProjectScanTask_new filter_ options_ context_ projector_
                     task_ partition_].
  repeat split. exists fragment, tasks. auto.
Qed.

(** X11.  Pulled past its end, the flattened sequence yields its elements
    and then only end markers; the iterator is then the one over no
    fragment, and the fragments scanned are still each fragment once: no
    fragment is scanned again and nothing is scanned after the end. *)
Theorem GetScanTaskIterator_end_is_stable (frs : FragmentIterator)
    (options : ScanOptions) (context : ScanContext) (log : ScanLog) (fuel k : nat) :
  2 * List.length frs + 1 <= fuel ->
  FlattenIterator_pull fuel
    (List.length (flat_map (contribution options context) frs) + S k)
    (GetScanTaskIterator frs options context) log =
    Some (map lift_result (flat_map (contribution options context) frs)
            ++ repeat (Ok None) (S k),
          GetScanTaskIterator [] options context,
          log ++ flat_map scanned frs).
Proof.
  intros Hfuel.
  apply (pull_flatten_past_end options context frs None log (fuel := fuel) k).
  unfold flatten_depth. lia.
Qed.

End TaskOutcomeClaims.

(** ** The further properties on sample data *)

Section FurtherOnSamples.
Import Sample.
#[local] Existing Instance Model.collaborators.
#[local] Open Scope string_scope.

(** X1 on a wrapped task that fails to start. *)
Lemma Execute_start_failure_leaves_task_witness :
  ScanTask_Execute (task_ (this (world_of decorated_fail))) = Err io_error
  /\ fst (Execute (world_of decorated_fail)) = Err io_error
  /\ this (snd (Execute (world_of decorated_fail))) = decorated_fail.
Proof.
  split; [reflexivity|].
  pose proof (@Execute_start_failure_leaves_task Model.collaborators
                (world_of decorated_fail) io_error eq_refl) as H.
  exact (conj (proj1 H) (proj1 (proj2 H))).
Defined.

(** X4 on the raw task over [batch1; batch2] and the partition
    [region = "west"]. *)
Lemma decorated_task_uses_wrapped_configuration_witness :
  ScanTask_Execute t3 = Ok [Ok batch1; Ok batch2]
  /\ projector (options_ (this (snd (Execute (world_of decorated_west))))) =
       sample_projector
  /\ projector_ (this (snd (Execute (world_of decorated_west)))) =
       {| Model.to_schema := ["x"; "region"];
          Model.defaults := [("region", Model.Str "west")];
          Model.scratch := 0 |}.
Proof.
  split; [reflexivity|].
  pose proof (@decorated_task_uses_wrapped_configuration Model.collaborators
                t3 (Some west) [Ok batch1; Ok batch2] [] eq_refl) as H.
  exact (conj (proj2 (proj2 (proj2 H))) (proj1 (proj2 (proj2 H)))).
Defined.


(** X5 on the predicate [x = 1], a batch with two selected rows and a batch
    with none: two batches come out, the second one empty. *)
Lemma FilterRecordBatch_one_batch_per_batch_witness :
  Forall2 (fun b out => filter_result tt x_is_1 tt (Ok b) = Ok (Some out))
    [batch1; {| Model.columns := [("x", [Model.Int 2])]; Model.num_rows := 1 |}]
    [{| Model.columns := [("x", [Model.Int 1; Model.Int 1])]; Model.num_rows := 2 |};
     {| Model.columns := [("x", [])]; Model.num_rows := 0 |}]
  /\ fst (fst (visit 3
                 (filter_stage
                    [Ok batch1;
                     Ok {| Model.columns := [("x", [Model.Int 2])]; Model.num_rows := 1 |}])
                 (world_of decorated_west))) =
     ([{| Model.columns := [("x", [Model.Int 1; Model.Int 1])]; Model.num_rows := 2 |};
       {| Model.columns := [("x", [])]; Model.num_rows := 0 |}], Exhausted).
Proof.
  assert (Hall :
    Forall2 (fun b out =>
               @filter_result Model.collaborators tt x_is_1 tt (Ok b) = Ok (Some out))
      [batch1; {| Model.columns := [("x", [Model.Int 2])]; Model.num_rows := 1 |}]
      [{| Model.columns := [("x", [Model.Int 1; Model.Int 1])]; Model.num_rows := 2 |};
       {| Model.columns := [("x", [])]; Model.num_rows := 0 |}]).
  { repeat constructor. }
  split; [exact Hall|].
  pose proof (@FilterRecordBatch_one_batch_per_batch Model.collaborators _ _ tt x_is_1 tt
                (world_of decorated_west) Hall) as [Houts [Hend _]].
  apply injective_projections; [exact Houts|exact Hend].
Defined.

(** X7 on a projector with no default for [region] and a batch without
    that column: a consumer with three pulls has the failure and nothing
    else, and the second batch is still in the input. *)
Lemma ProjectRecordBatch_yields_projection_failure_witness :
  fst (Project (deref AddrOf_projector_ (world_of decorated_unpartitioned)) batch1 tt) =
    Err (mkStatus TypeError "missing column with no default")
  /\ visit 3 (project_stage [Ok batch1; Ok batch2]) (world_of decorated_unpartitioned) =
     ([], Failed (mkStatus TypeError "missing column with no default"),
      project_stage [Ok batch2],
      add_calls [CopyProjector sample_projector; CallProject sample_projector batch1]
        (world_of decorated_unpartitioned)).
Proof.
  split; [reflexivity|].
  exact (proj1 (@ProjectRecordBatch_yields_projection_failure Model.collaborators
                  RecordBatchIterator _ [Ok batch1; Ok batch2] [Ok batch2] batch1
                  (world_of decorated_unpartitioned)
                  (world_of decorated_unpartitioned)
                  AddrOf_projector_ tt
                  (mkStatus TypeError "missing column with no default") 2
                  eq_refl eq_refl)).
Defined.

(** X8 on a raw sequence with a failed pull at position 1. *)
Lemma pipeline_passes_failures_and_end_witness :
  ScanTask_Execute (task_ (this (world_of decorated_err))) = Ok [Ok batch1; Err io_error]
  /\ nth_error
       (fst (fst (pull 4 (stages_of (this (world_of decorated_err))
                            [Ok batch1; Err io_error])
                    (snd (Execute (world_of decorated_err)))))) 1 =
     Some (Err io_error)
  /\ skipn 2
       (fst (fst (pull 4 (stages_of (this (world_of decorated_err))
                            [Ok batch1; Err io_error])
                    (snd (Execute (world_of decorated_err)))))) =
     [Ok None; Ok None].
Proof.
  split; [reflexivity|].
  pose proof (@pipeline_passes_failures_and_end Model.collaborators
                (world_of decorated_err) [Ok batch1; Err io_error]
                (stages_of (this (world_of decorated_err)) [Ok batch1; Err io_error]) 4
                eq_refl eq_refl) as [Hfail Hend].
  split.
  - apply (Hfail 1 io_error); [lia|reflexivity].
  - apply Hend. cbn. lia.
Defined.

(** X9 on a fragment sequence with a failed pull, a fragment without
    tasks, a fragment with a failed task pull, a fragment whose scan fails and
    a fragment with two tasks. *)
Lemma GetScanTaskIterator_flattens_any_sequence_witness :
  FlattenIterator_collect 19
    (GetScanTaskIterator [Err pull_error; Ok F_empty; Ok F_mixed; Ok F_bad; Ok F1]
       sample_options sample_context) [] =
    Some ([Err pull_error;
           Ok (FilterAndProjectScanTask_new t1 (Some east));
           Err io_error;
           Ok (FilterAndProjectScanTask_new t2 (Some east));
           Err io_error;
           Ok (FilterAndProjectScanTask_new t1 (Some west));
           Ok (FilterAndProjectScanTask_new t2 (Some west))],
          [F_empty; F_mixed; F_bad; F1]).
Proof.
  apply (@GetScanTaskIterator_flattens_any_sequence Model.collaborators
           [Err pull_error; Ok F_empty; Ok F_mixed; Ok F_bad; Ok F1]
           sample_options sample_context [] 19).
  cbn. lia.
Defined.

(** X10 on [F_mixed; F1], for the task wrapping [t2] of [F_mixed]. *)
Lemma GetScanTaskIterator_yields_fresh_decorated_tasks_witness :
  FlattenIterator_collect 11
    (GetScanTaskIterator [Ok F_mixed; Ok F1] sample_options sample_context) [] =
    Some ([Ok (FilterAndProjectScanTask_new t1 (Some east));
           Err io_error;
           Ok (FilterAndProjectScanTask_new t2 (Some east));
           Ok (FilterAndProjectScanTask_new t1 (Some west));
           Ok (FilterAndProjectScanTask_new t2 (Some west))],
          [F_mixed; F1])
  /\ filter_ (FilterAndProjectScanTask_new t2 (Some east)) = None
  /\ projector_ (FilterAndProjectScanTask_new t2 (Some east)) = sample_projector.
Proof.
  split; [reflexivity|].
  assert (Hfuel : 2 * List.length [Ok F_mixed; Ok F1]
                  + List.length (flat_map (contribution sample_options sample_context)
                                   [Ok F_mixed; Ok F1]) + 2 <= 11).
  { cbn. lia. }
  assert (Hin : In (Ok (FilterAndProjectScanTask_new t2 (Some east)))
                  [Ok (FilterAndProjectScanTask_new t1 (Some east));
                   Err io_error;
                   Ok (FilterAndProjectScanTask_new t2 (Some east));
                   Ok (FilterAndProjectScanTask_new t1 (Some west));
                   Ok (FilterAndProjectScanTask_new t2 (Some west))]).
  { right. right. left. reflexivity. }
  pose proof (@GetScanTaskIterator_yields_fresh_decorated_tasks Model.collaborators
                [Ok F_mixed; Ok F1] sample_options sample_context [] 11 _ _
                Hfuel eq_refl _ Hin) as H.
  exact (conj (proj1 H) (proj1 (proj2 (proj2 (proj2 H))))).
Defined.

(** X11 on [F_empty; F1], three pulls past the end. *)
Lemma GetScanTaskIterator_end_is_stable_witness :
  FlattenIterator_pull 5 5
    (GetScanTaskIterator [Ok F_empty; Ok F1] sample_options sample_context) [] =
    Some ([Ok (Some (FilterAndProjectScanTask_new t1 (Some west)));
           Ok (Some (FilterAndProjectScanTask_new t2 (Some west)));
           Ok None; Ok None; Ok None],
          GetScanTaskIterator [] sample_options sample_context,
          [F_empty; F1]).
Proof.
  apply (@GetScanTaskIterator_end_is_stable Model.collaborators
           [Ok F_empty; Ok F1] sample_options sample_context [] 5 2).
  cbn. lia.
Defined.

End FurtherOnSamples.

Section FurtherOnStrictSamples.
Import SampleStrict.
#[local] Open Scope string_scope.

(** X2 on collaborators whose [SetDefaultValuesFromKeys] fails after
    applying the first binding. *)
Lemma Execute_defaults_failure_keeps_effects_witness :
  fst (@SetDefaultValuesFromKeys strict Sample.west (projector_ (this strict_world))) =
    Err type_error
  /\ fst (Execute strict_world) = Err type_error
  /\ filter_ (this (snd (Execute strict_world))) = Some Sample.x_is_1
  /\ projector_ (this (snd (Execute strict_world))) =
       {| Model.to_schema := ["x"; "region"];
          Model.defaults := [("region", Model.Str "west")];
          Model.scratch := 0 |}.
Proof.
  split; [reflexivity|].
  pose proof (@Execute_defaults_failure_keeps_effects strict strict_world
                [Ok Sample.batch1] Sample.west type_error eq_refl eq_refl eq_refl) as H.
  exact (conj (proj1 H) (conj (proj1 (proj2 H)) (proj1 (proj2 (proj2 H))))).
Defined.

End FurtherOnStrictSamples.
